(** * mongo-rest-route: the patch reconciler and the schema gate

    A shallow embedding of [apply-patch-request.ts] (the second half of
    [src/src/with-db.ts], whose line numbers the comments use),
    [json-patch-schema.ts] ([src/unnamed/part_001]) and [get-validate.ts]
    ([src/unnamed/part_003]).  JavaScript objects live in a store of mutable
    objects addressed by location, so that the sharing between the original
    document and its working copy is part of the model.  An exception is an
    outcome that keeps the store as the throwing code left it.

    Around them: [handle-validation-error.ts] ([src/unnamed/part_002]), the
    middleware of [with-db.ts] (the first half of [src/src/with-db.ts]) and
    the handlers of POST, PUT and PATCH of the router
    ([src/unnamed/part_004]), with the driver of the database as a class of
    its own. *)

From Stdlib Require Import ZArith Ascii String List Bool Lia.
From Corelib Require Import SpecFloat.
From stdpp Require Import base tactics option list gmap strings pretty.

Local Open Scope string_scope.
Set Warnings "-register-all".

(** ** Strings

    A [string] stands for a JavaScript string, each [ascii] for one code
    unit. *)
Module Str.

(** the double quote character *)
Definition dquote : ascii := Ascii.ascii_of_nat 34.

(** [s.split('/')] *)
Fixpoint split_slash (s : string) : list string :=
  match s with
  | EmptyString => [EmptyString]
  | String c r =>
      if Ascii.eqb c "/" then EmptyString :: split_slash r
      else match split_slash r with
           | x :: xs => String c x :: xs
           | [] => [String c EmptyString]
           end
  end.

(** the truthiness of a string, [!!x] *)
Definition truthy (s : string) : bool :=
  match s with EmptyString => false | _ => true end.

Fixpoint drop (n : nat) (s : string) : string :=
  match n, s with
  | S n', String _ r => drop n' r
  | _, _ => s
  end.

(** [s.replace(pat, rep)] with a string pattern: the first occurrence only. *)
Fixpoint replace (pat rep s : string) : string :=
  if String.prefix pat s then rep ++ drop (String.length pat) s
  else match s with
       | EmptyString => EmptyString
       | String c r => String c (replace pat rep r)
       end.

(** Every occurrence of a non-empty [pat] replaced, left to right.  The fuel
    bounds the number of characters read; [replace_all] gives enough. *)
Fixpoint replace_all_fuel (fuel : nat) (pat rep s : string) : string :=
  match fuel with
  | O => s
  | S fuel' =>
      if String.prefix pat s
      then rep ++ replace_all_fuel fuel' pat rep (drop (String.length pat) s)
      else match s with
           | EmptyString => EmptyString
           | String c r => String c (replace_all_fuel fuel' pat rep r)
           end
  end.

Definition replace_all (pat rep s : string) : string :=
  replace_all_fuel (S (String.length s)) pat rep s.

(** [s.slice(from, to)], a negative argument counting from the end. *)
Definition slice (s : string) (from to : Z) : string :=
  let len := Z.of_nat (String.length s) in
  let clamp (i : Z) := if (i <? 0)%Z then Z.max (len + i) 0 else Z.min i len in
  let a := clamp from in
  let b := clamp to in
  String.substring (Z.to_nat a) (Z.to_nat (Z.max (b - a) 0)) s.

(** [s[i]]; [None] stands for [undefined]. *)
Definition char_at (s : string) (i : Z) : option ascii :=
  if (i <? 0)%Z then None else String.get (Z.to_nat i) s.

End Str.

(** ** Values and the object store *)

(** A number is an IEEE-754 double. *)
Abbreviation number := spec_float.

(** [n < Infinity && n > -Infinity], with the comparisons of binary64. *)
Definition lt_Infinity_and_gt_neg_Infinity (n : number) : bool :=
  SFltb n (S754_infinity false) && SFltb (S754_infinity true) n.

(** A location of the store. *)
Abbreviation loc := nat (only parsing).

Inductive value :=
| VUndefined
| VNull
| VBool (b : bool)
| VNumber (n : number)
| VString (s : string)
| VRef (l : loc).

#[global] Instance number_eq_dec : EqDecision number.
Proof. solve_decision. Defined.
#[global] Instance value_eq_dec : EqDecision value.
Proof. solve_decision. Defined.

(** What an object is besides its properties.  An [ObjectId] answers
    [toHexString()] with its 24 hexadecimal digits; a [Date] holds a time
    value. *)
Inductive okind :=
| KObject
| KArray
| KObjectId (hex : string)
| KDate (time : Z).

(** An object: its kind and its own enumerable properties.  The elements of
    an array are the properties named by their indices.  Inherited
    properties, and with them the accessor [__proto__], are outside the
    model. *)
Record object := Object { kind : okind; props : gmap string value }.

(** The store: location [l] is the [l]-th object ever allocated. *)
Abbreviation heap := (list object).

Inductive ErrorObject := MkErrorObject {
  keyword : string;
  instancePath : string;
  schemaPath : string;
  params : list string;
  message : string }.

Inductive error :=
| TypeError
| SyntaxError
| ValidationError (errors : list ErrorObject)
| OtherError (name : string).

(** How a call ends: it returns a value or throws; either way it leaves a
    store behind. *)
Inductive outcome (A : Type) :=
| Return (h : heap) (a : A)
| Throw (h : heap) (e : error).
Arguments Return {A} h a.
Arguments Throw {A} h e.

Definition bind {A B} (m : outcome A) (k : heap -> A -> outcome B) : outcome B :=
  match m with
  | Return h a => k h a
  | Throw h e => Throw h e
  end.

(** The store an outcome leaves. *)
Definition final_heap {A} (m : outcome A) : heap :=
  match m with Return h _ | Throw h _ => h end.

(** [new]: the object is appended to the store. *)
Definition alloc (h : heap) (o : object) : heap * loc :=
  ((h ++ [o])%list, length h).

(** The names that every object inherits from [Object.prototype] as the
    engine makes it. *)
Definition Object_prototype_names : list string :=
  ["constructor"; "__defineGetter__"; "__defineSetter__"; "hasOwnProperty";
   "__lookupGetter__"; "__lookupSetter__"; "isPrototypeOf";
   "propertyIsEnumerable"; "toString"; "valueOf"; "__proto__";
   "toLocaleString"].

(** [o[k]] for an own property of an object; a name that the object
    neither has nor inherits reads as [undefined].  Reading a property of
    [null] or [undefined] throws.  What a primitive answers of its own (a
    character or the length of a string) is a primitive again, for which
    [getPatchTarget] answers as it does for [undefined]: it reads as
    [undefined] here.  A name that [o] inherits, one of
    [Object_prototype_names] or a method of its class, is outside the
    model: a statement that depends on reading such a name as [undefined]
    excludes it by a hypothesis. *)
Definition get (h : heap) (o : value) (k : string) : error + value :=
  match o with
  | VUndefined | VNull => inl TypeError
  | VRef l =>
      match h !! l with
      | Some ob => inr (default VUndefined (props ob !! k))
      | None => inr VUndefined
      end
  | _ => inr VUndefined
  end.

Definition set_prop (k : string) (v : value) (ob : object) : object :=
  Object (kind ob) (<[k := v]> (props ob)).

Definition delete_prop (k : string) (ob : object) : object :=
  Object (kind ob) (delete k (props ob)).

(** [target[k] = v].  The module is compiled in strict mode, where the
    assignment throws on anything that is not an object.  The one name
    that an object inherits with a setter is [__proto__]: assigning to it
    sets the prototype and makes no property, which is outside the model.
    A statement that depends on the property being made excludes that key
    by a hypothesis. *)
Definition assign (h : heap) (target : value) (k : string) (v : value) : outcome unit :=
  match target with
  | VRef l => Return (alter (set_prop k v) l h) tt
  | _ => Throw h TypeError
  end.

(** [delete p[k]]: a no-op on a primitive, a throw on [null] and
    [undefined]. *)
Definition delete_property (h : heap) (p : value) (k : string) : outcome unit :=
  match p with
  | VRef l => Return (alter (delete_prop k) l h) tt
  | VUndefined | VNull => Throw h TypeError
  | _ => Return h tt
  end.

Definition isArray (h : heap) (o : value) : bool :=
  match o with
  | VRef l => match kind <$> h !! l with Some KArray => true | _ => false end
  | _ => false
  end.

(** [['number', 'bigint', 'string', 'boolean'].includes(typeof o)] *)
Definition typeof_is_primitive (o : value) : bool :=
  match o with
  | VNumber _ | VString _ | VBool _ => true
  | _ => false
  end.

(** [v.toHexString()]: only an [ObjectId] has the method. *)
Definition toHexString (h : heap) (v : value) : error + string :=
  match v with
  | VRef l =>
      match kind <$> h !! l with
      | Some (KObjectId hex) => inr hex
      | _ => inl TypeError
      end
  | _ => inl TypeError
  end.

(** [r] continued by [k] in store [h]: an error is thrown there. *)
Definition try {A B} (h : heap) (r : error + A) (k : A -> outcome B) : outcome B :=
  match r with
  | inl e => Throw h e
  | inr a => k a
  end.

(** ** JSON data: request bodies, patches, schemas *)

Inductive json :=
| JNull
| JBool (b : bool)
| JNumber (n : number)
| JString (s : string)
| JArray (items : list json)
| JObject (members : list (string * json)).

(** [o[k]] on JSON data: the member named [k], if any. *)
Definition member (k : string) (members : list (string * json)) : option json :=
  snd <$> List.find (fun kv => String.eqb (fst kv) k) members.

(** [Object.keys(v).length]: the characters of a string, the elements of an
    array, the members of an object, nothing for a number or a boolean;
    [None] is the [TypeError] that [null] raises. *)
Definition Object_keys_length (v : json) : option nat :=
  match v with
  | JNull => None
  | JBool _ | JNumber _ => Some 0
  | JString s => Some (String.length s)
  | JArray items => Some (length items)
  | JObject members => Some (length members)
  end.

(** *** json-patch-schema.ts *)
Module JsonPatchSchema.

(** no [~] that is not followed by [0] or [1] *)
Fixpoint escapes_ok (s : string) : bool :=
  match s with
  | EmptyString => true
  | String c r =>
      if Ascii.eqb c "~" then
        match r with
        | String d r' => (Ascii.eqb d "0" || Ascii.eqb d "1") && escapes_ok r'
        | EmptyString => false
        end
      else escapes_ok r
  end.

(** The pattern of a pointer (line 11): any number of segments, each a [/]
    followed by characters other than [~] and [/] or by [~0] or [~1].  So
    the string is empty, or starts with [/] and every [~] in it starts [~0]
    or [~1]. *)
Definition pattern (s : string) : bool :=
  match s with
  | EmptyString => true
  | String c r => Ascii.eqb c "/" && escapes_ok r
  end.

(** [{ "type": "string", "pattern": ... }] *)
Definition pointer (j : json) : bool :=
  match j with JString s => pattern s | _ => false end.

(** [{ "enum": [...] }] *)
Definition enum (allowed : list string) (j : json) : bool :=
  match j with JString s => existsb (String.eqb s) allowed | _ => false end.

(** One entry of ["properties"]: it constrains the member only when the
    member is there. *)
Definition property (k : string) (check : json -> bool) (ms : list (string * json)) : bool :=
  match member k ms with Some j => check j | None => true end.

(** ["required": [...]] *)
Definition required (ks : list string) (ms : list (string * json)) : bool :=
  forallb (fun k => bool_decide (is_Some (member k ms))) ks.

Definition addReplaceTest (j : json) : bool :=
  match j with
  | JObject ms =>
      property "op" (enum ["add"; "replace"; "test"]) ms
      && property "path" pointer ms
      && property "value" (fun _ => true) ms
      && required ["op"; "path"; "value"] ms
  | _ => false
  end.

Definition remove (j : json) : bool :=
  match j with
  | JObject ms =>
      property "op" (enum ["remove"]) ms
      && property "path" pointer ms
      && required ["op"; "path"] ms
  | _ => false
  end.

Definition moveCopy (j : json) : bool :=
  match j with
  | JObject ms =>
      property "op" (enum ["move"; "copy"]) ms
      && property "from" pointer ms
      && property "path" pointer ms
      && required ["op"; "from"; "path"] ms
  | _ => false
  end.

(** ["oneOf"]: exactly one of the alternatives holds. *)
Definition oneOf (alternatives : list (json -> bool)) (j : json) : bool :=
  Nat.eqb (length (List.filter (fun a => a j) alternatives)) 1.

(** The schema: an array whose items are each one of the three shapes. *)
Definition conforms (data : json) : bool :=
  match data with
  | JArray items => forallb (oneOf [addReplaceTest; remove; moveCopy]) items
  | _ => false
  end.

End JsonPatchSchema.

(** What a validating function compiled from a schema with ["$async": true]
    returns: a promise, fulfilled for conforming data and rejected with a
    [ValidationError] otherwise. *)
Inductive promise :=
| Fulfilled
| Rejected.

(** [ajv.compile(jsonPatchSchema)].  Nothing awaits the promise. *)
Definition validatePatchSchema (data : json) : promise :=
  if JsonPatchSchema.conforms data then Fulfilled else Rejected.

(** ** What the code calls and does not define *)

(** The engine's built-ins.  [Date_parse s] is the time value of
    [new Date(s)], [None] when it is [NaN]; [JSON_parse s] is [None] when
    [JSON.parse(s)] throws its [SyntaxError]. *)
Class Engine := {
  parseInt : string -> number;
  parseFloat : string -> number;
  Number_toString : number -> string;
  Date_parse : string -> option Z;
  JSON_parse : string -> option json }.

(** [applyPatch(document, patch)] of fast-json-patch, called with its
    default options: it returns [newDocument] or throws, and may have
    written to the store either way. *)
Class FastJsonPatch := {
  applyPatch : heap -> value -> json -> outcome value }.

(** ** apply-patch-request.ts *)

Section ApplyPatchRequest.
Context `{Engine} `{FastJsonPatch}.

(** [x.replace('~0', '/').replace('~1', '~')] *)
Definition unescape (x : string) : string :=
  Str.replace "~1" "~" (Str.replace "~0" "/" x).

(** [keys.split('/').filter(x=>!!x).map(...)] *)
Definition split_keys (keys : string) : list string :=
  map unescape (List.filter Str.truthy (Str.split_slash keys)).

(** [getPatchTarget] once [keys] is an array.  The recursion descends with
    [keys.slice(1)]. *)
Fixpoint getPatchTarget_array (h : heap) (o : value) (keys : list string) : error + value :=
  match o with
  | VUndefined => inr VUndefined
  | _ =>
      match keys with
      | k0 :: ((_ :: _) as rest) =>
          let k := if isArray h o then Number_toString (parseInt k0) else k0 in
          match get h o k with
          | inl e => inl e
          | inr v => getPatchTarget_array h v rest
          end
      | _ => if typeof_is_primitive o then inr VUndefined else inr o
      end
  end.

(** [getPatchTarget(o, keys)], [keys] a string or an array. *)
Definition getPatchTarget (h : heap) (o : value) (keys : string + list string) : error + value :=
  getPatchTarget_array h o
    (match keys with inl s => split_keys s | inr ks => ks end).

(** A request: the body, and the query as the pairs of a key and
    [req.query[key]?.toString()], in the order of [Object.keys(req.query)]. *)
Record Request := {
  body : json;
  query : list (string * option string) }.

(** [req.query[key]?.toString()] *)
Definition query_value (q : list (string * option string)) (key : string) : option string :=
  match List.find (fun kv => String.eqb (fst kv) key) q with
  | Some (_, v) => v
  | None => None
  end.

Definition literals : list (string * value) :=
  [("undefined", VUndefined); ("null", VNull);
   ("true", VBool true); ("false", VBool false)].

(** The quoted-string test of line 117: [value[0]] is the double quote and
    equals [value[value.length-1]]. *)
Definition quoted (value : string) : bool :=
  match Str.char_at value 0 with
  | Some c =>
      Ascii.eqb c Str.dquote
      && match Str.char_at value (Z.of_nat (String.length value) - 1) with
         | Some c' => Ascii.eqb c c'
         | None => false
         end
  | None => false
  end.

(** The body of the [forEach] callback, for one key of the query. *)
Definition patchKey (q : list (string * option string)) (newObject : value)
    (h : heap) (key : string) : outcome unit :=
  try h (getPatchTarget h newObject (inl key)) (fun target =>
  match target, query_value q key with
  | VUndefined, _ | _, None => Return h tt
  | _, Some value =>
      match List.find (fun l => String.eqb value (fst l)) literals with
      | Some l => assign h target key (snd l)
      | None =>
          if quoted value then
            assign h target key
              (VString (Str.slice value 1 (Z.of_nat (String.length value) - 2)))
          else
            let n := parseFloat value in
            if lt_Infinity_and_gt_neg_Infinity n then
              assign h target key (VNumber n)
            else
              (* the date is stored and, there being no [return], overwritten *)
              bind (match Date_parse value with
                    | Some t =>
                        let '(h1, d) := alloc h (Object (KDate t) ∅) in
                        assign h1 target key (VRef d)
                    | None => Return h tt
                    end)
                   (fun h2 _ => assign h2 target key (VString value))
      end
  end).

(** [keys.forEach(f)]: the first exception ends the loop. *)
Fixpoint forEach (f : heap -> string -> outcome unit) (h : heap) (keys : list string)
    : outcome unit :=
  match keys with
  | [] => Return h tt
  | key :: rest => bind (f h key) (fun h' _ => forEach f h' rest)
  end.

(** [{...origObject}]: a new plain object with the properties of the
    original. *)
Definition spread (h : heap) (origObject : loc) : heap * loc :=
  alloc h (Object KObject (default ∅ (props <$> h !! origObject))).

Definition read_only_error : ErrorObject :=
  {| keyword := EmptyString;
     instancePath := "/_id";
     schemaPath := EmptyString;
     params := [];
     message := "The _id field is read only." |}.

(** Lines 142 to 152: the comparison of the two identities. *)
Definition check_id (h : heap) (origObject : loc) (newObject : value) : outcome value :=
  try h (get h (VRef origObject) "_id") (fun oid =>
  try h (toHexString h oid) (fun a =>
  try h (get h newObject "_id") (fun nid =>
  try h (toHexString h nid) (fun b =>
  if String.eqb a b then Return h newObject
  else Throw h (ValidationError [read_only_error]))))).

(** The string an engine makes of the argument of [JSON.parse]; [None] is
    the [TypeError] of a conversion that fails.  An object is converted by
    its [toString]: the inherited one answers [[object Object]], and an own
    member of that name, which in parsed JSON is never a function, leaves
    nothing to convert with.  An array is its elements joined by commas,
    [null] counting as empty. *)
Fixpoint ToString (v : json) : option string :=
  match v with
  | JString s => Some s
  | JNumber n => Some (Number_toString n)
  | JBool true => Some "true"
  | JBool false => Some "false"
  | JNull => Some "null"
  | JObject members =>
      match member "toString" members with
      | Some _ => None
      | None => Some "[object Object]"
      end
  | JArray items =>
      (fix join (xs : list json) : option string :=
         match xs with
         | [] => Some EmptyString
         | x :: rest =>
             match (match x with JNull => Some EmptyString | _ => ToString x end) with
             | None => None
             | Some first =>
                 match rest with
                 | [] => Some first
                 | _ =>
                     match join rest with
                     | None => None
                     | Some others => Some (first ++ "," ++ others)
                     end
                 end
             end
         end) items
  end.

(** [applyPatchRequest(origObject, req)].  The placeholder [{ _id: new
    ObjectId() }] of line 94 is replaced on both branches before it is read
    and is left out. *)
Definition applyPatchRequest (h : heap) (origObject : loc) (req : Request) : outcome value :=
  match Object_keys_length (body req) with
  | None => Throw h TypeError
  | Some n =>
      let isBodyEmpty := Nat.eqb n 0 in
      bind
        (if isBodyEmpty then
           (* patch using query params *)
           let '(h1, newObject) := spread h origObject in
           bind (forEach (patchKey (query req) (VRef newObject)) h1
                   (List.filter Str.truthy (map fst (query req))))
                (fun h2 _ => Return h2 (VRef newObject))
         else
           (* JSON Patch *)
           match ToString (body req) with
           | None => Throw h TypeError
           | Some text =>
               match JSON_parse text with
               | None => Throw h SyntaxError
               | Some patch =>
                   let _ := validatePatchSchema (body req) in
                   applyPatch h (VRef origObject) patch
               end
           end)
        (fun h' newObject => check_id h' origObject newObject)
  end.

End ApplyPatchRequest.

(** ** get-validate.ts *)

(** A JSON schema of an object type: its [properties], its [required] list,
    and whatever other keywords it carries. *)
Record JSONSchema := {
  properties : gmap string json;
  required : list string;
  keywords : list (string * json) }.

(** [ajv.validate(schema, data)] for a schema that compiles: the verdict
    comes back as a boolean (the errors are left on the [ajv] instance). *)
Class Ajv := {
  ajv_validate : JSONSchema -> heap -> value -> bool }.

Record DateFields := {
  added : option string;
  lastModified : option string;
  deleted : option string }.

(** [a || b] on an optional string: the empty string is falsy as well. *)
Definition or_else (a : option string) (b : string) : string :=
  match a with
  | Some s => if Str.truthy s then s else b
  | None => b
  end.

Definition requiredIdSchema : json :=
  JObject [("type", JString "string")].

Definition optionalDateSchema : json :=
  JObject [("type", JString "string"); ("format", JString "date-time");
           ("nullable", JBool true)].

(** [withId]: the spread puts [_id] and [$async] among the properties. *)
Definition withId (schema : JSONSchema) : JSONSchema :=
  {| properties :=
       <["$async" := JBool true]> (<["_id" := requiredIdSchema]> (properties schema));
     required := List.filter (fun x => negb (String.eqb x "_id")) (required schema);
     keywords := keywords schema |}.

Definition withManagedDates (schema : JSONSchema) (dateFields : DateFields) : JSONSchema :=
  {| properties :=
       <[or_else (deleted dateFields) "deleted" := optionalDateSchema]>
         (<[or_else (lastModified dateFields) "lastModified" := optionalDateSchema]>
            (<[or_else (added dateFields) "added" := optionalDateSchema]>
               (properties schema)));
     required := required schema;
     keywords := keywords schema |}.

(** The elements of an array, from the properties named [0], [1], ... *)
Fixpoint elements_from (m : gmap string value) (i fuel : nat) : list value :=
  match fuel with
  | O => []
  | S fuel' =>
      match m !! pretty i with
      | Some v => v :: elements_from m (S i) fuel'
      | None => []
      end
  end.

Definition elements (h : heap) (l : loc) : list value :=
  match h !! l with
  | Some ob => elements_from (props ob) 0 (size (props ob))
  | None => []
  end.

(** The two functions [getValidate] returns. *)
Record Validators := {
  validate : heap -> value -> option bool -> outcome value;
  validateBulk : heap -> value -> outcome value }.

Section GetValidate.
Context `{Ajv}.

(** [payload.forEach(f)] *)
Fixpoint forEach_value (f : heap -> value -> outcome value) (h : heap) (xs : list value)
    : outcome unit :=
  match xs with
  | [] => Return h tt
  | x :: rest => bind (f h x) (fun h' _ => forEach_value f h' rest)
  end.

(** [getValidate(schema, options)], [options.dateFields] given as
    [dateFieldOverrides].  [validate] takes [options?.allowManagedDates]. *)
Definition getValidate (schema : JSONSchema) (dateFieldOverrides : DateFields) : Validators :=
  let addedField := default "added" (added dateFieldOverrides) in
  let lastModifiedField := default "lastModified" (lastModified dateFieldOverrides) in
  let deletedField := default "deleted" (deleted dateFieldOverrides) in
  let dateFields :=
    {| added := Some addedField;
       lastModified := Some lastModifiedField;
       deleted := Some deletedField |} in
  let idSchema := withId schema in
  let dateSchema := withManagedDates (withId schema) dateFields in
  let validate (h : heap) (payload : value) (allowManagedDates : option bool) : outcome value :=
    let isUpdate := default false allowManagedDates in
    bind
      (if isUpdate then
         let p := payload in
         bind (delete_property h p "_id") (fun h1 _ =>
         bind (delete_property h1 p addedField) (fun h2 _ =>
         bind (delete_property h2 p lastModifiedField) (fun h3 _ =>
         delete_property h3 p deletedField)))
       else Return h tt)
      (fun h' _ =>
         let _ := ajv_validate schema h' payload in
         Return h' payload) in
  let validateBulk (h : heap) (payload : value) : outcome value :=
    if isArray h payload then
      bind (forEach_value (fun h x => validate h x None) h
              (match payload with VRef l => elements h l | _ => [] end))
           (fun h' _ => Return h' payload)
    else
      bind (validate h payload None) (fun h' _ =>
      let '(h2, a) := alloc h' (Object KArray {[ "0" := payload ]}) in
      Return h2 (VRef a)) in
  {| validate := validate; validateBulk := validateBulk |}.

End GetValidate.

(** ** The behaviour the specification words describe

    Two definitions that follow the specification rather than the code, to
    be compared with [split_keys] and with what [patchKey] stores. *)

Section Reference.
Context `{Engine}.

(** Section 4.1: split on [/], drop the empty segments, and in each segment
    replace every [~1] by [/] and every [~0] by [~]. *)
Definition spec_split_keys (path : string) : list string :=
  map (fun x => Str.replace_all "~0" "~" (Str.replace_all "~1" "/" x))
      (List.filter Str.truthy (Str.split_slash path)).

(** What a coercion yields: a plain value, or a date with its time value. *)
Inductive coercion :=
| Plain (v : value)
| DateValue (time : Z).

(** Section 4.2: the five ordered rules, first match wins. *)
Definition spec_coerce (raw : string) : coercion :=
  if String.eqb raw "undefined" then Plain VUndefined
  else if String.eqb raw "null" then Plain VNull
  else if String.eqb raw "true" then Plain (VBool true)
  else if String.eqb raw "false" then Plain (VBool false)
  else if quoted raw then
    Plain (VString (Str.slice raw 1 (Z.of_nat (String.length raw) - 1)))
  else if lt_Infinity_and_gt_neg_Infinity (parseFloat raw) then
    Plain (VNumber (parseFloat raw))
  else match Date_parse raw with
       | Some t => DateValue t
       | None => Plain (VString raw)
       end.

(** ** What one query parameter leaves behind

    [coerced raw] is the value that line 113, 118, 124 or 133 leaves at
    [target[key]] for the raw string [raw]; [transient raw] is the [Date]
    that line 128 allocates when line 130 is reached. *)
Definition coerced (raw : string) : value :=
  match List.find (fun l => String.eqb raw (fst l)) literals with
  | Some l => snd l
  | None =>
      if quoted raw then
        VString (Str.slice raw 1 (Z.of_nat (String.length raw) - 2))
      else if lt_Infinity_and_gt_neg_Infinity (parseFloat raw) then
        VNumber (parseFloat raw)
      else VString raw
  end.

Definition transient (raw : string) : list object :=
  match List.find (fun l => String.eqb raw (fst l)) literals with
  | Some l => []
  | None =>
      if quoted raw then []
      else if lt_Infinity_and_gt_neg_Infinity (parseFloat raw) then []
      else match Date_parse raw with
           | Some t => [Object (KDate t) ∅]
           | None => []
           end
  end.

End Reference.

(** No property of any object in the store refers to [l]. *)
Definition unreferenced (h : heap) (l : loc) : Prop :=
  Forall (fun ob => map_Forall (fun _ v => v <> VRef l) (props ob)) h.

(** The object at [l] has the property [k], holding [v]. *)
Definition holds (h : heap) (l : loc) (k : string) (v : value) : Prop :=
  exists ob, h !! l = Some ob /\ props ob !! k = Some v.

(** What [o._id] reads for the object at [l]. *)
Definition identity (h : heap) (l : loc) : value :=
  default VUndefined (h !! l ≫= fun ob => props ob !! "_id").

(** ** A host for the examples

    An engine that finds no number and no date in any string, which is what
    a JavaScript engine answers for the strings of the examples below
    ([true], [Joseph Francis Tribbiani Jr.]), and that parses no JSON text;
    an applier that leaves the document alone.  The examples patch by query
    parameters, where the applier and [JSON.parse] are not called.  An
    [ajv.validate] that rejects: the example schema requires a [name], which
    the example document does not have. *)
Module ExampleHost.

#[export] Instance engine : Engine := {|
  parseInt := fun _ => S754_nan;
  parseFloat := fun _ => S754_nan;
  Number_toString := fun _ => "NaN";
  Date_parse := fun _ => None;
  JSON_parse := fun _ => None |}.

#[export] Instance applier : FastJsonPatch := {|
  applyPatch := fun h document _ => Return h document |}.

(** An identity, a document that has it and an [address], the address. *)
Definition objectId : object := Object (KObjectId "507f1f77bcf86cd799439011") ∅.
Definition address : object := Object KObject {[ "city" := VString "Rome" ]}.
Definition document : object :=
  Object KObject (<[ "address" := VRef 1 ]> {[ "_id" := VRef 0 ]}).
Definition store : heap := [objectId; address; document].

#[export] Instance ajv : Ajv := {|
  ajv_validate := fun _ _ _ => false |}.

Definition example_schema : JSONSchema :=
  {| properties := {[ "name" := JObject [("type", JString "string")] ]};
     required := ["name"];
     keywords := [("type", JString "object")] |}.

Definition no_overrides : DateFields :=
  {| added := None; lastModified := None; deleted := None |}.

(** The four characters of a quoted 42. *)
Definition quoted_42 : string :=
  String Str.dquote ("42" ++ String Str.dquote EmptyString).

End ExampleHost.

(** ** The example of section 8: a replace, then a test that fails

    The host of this example parses the one text of the example, and its
    applier works in place on the document it is given, which is what
    [applyPatch] of fast-json-patch does when its fourth argument,
    [mutateDocument], is left to its default.  The applier covers what the
    example uses: [add], [replace] and [test] of a member of the document
    itself, with a primitive value. *)
Module AtomicityExample.

Definition quote (s : string) : string :=
  String Str.dquote (s ++ String Str.dquote EmptyString).

(** The body: the replace of [/name] by [A], then the test of [/age]
    against 999. *)
Definition text : string :=
  "[{" ++ quote "op" ++ ":" ++ quote "replace" ++ ","
       ++ quote "path" ++ ":" ++ quote "/name" ++ ","
       ++ quote "value" ++ ":" ++ quote "A" ++ "},{"
       ++ quote "op" ++ ":" ++ quote "test" ++ ","
       ++ quote "path" ++ ":" ++ quote "/age" ++ ","
       ++ quote "value" ++ ":999}]".

(** 5 and 999 as doubles. *)
Definition five : number := S754_finite false 5 0.
Definition nine_nine_nine : number := S754_finite false 999 0.

Definition patch : json :=
  JArray
    [JObject [("op", JString "replace"); ("path", JString "/name");
              ("value", JString "A")];
     JObject [("op", JString "test"); ("path", JString "/age");
              ("value", JNumber nine_nine_nine)]].

#[export] Instance parsing_engine : Engine := {|
  parseInt := fun _ => S754_nan;
  parseFloat := fun _ => S754_nan;
  Number_toString := fun _ => "NaN";
  Date_parse := fun _ => None;
  JSON_parse := fun s => if String.eqb s text then Some patch else None |}.

Definition primitive (j : json) : option value :=
  match j with
  | JNull => Some VNull
  | JBool b => Some (VBool b)
  | JNumber n => Some (VNumber n)
  | JString s => Some (VString s)
  | _ => None
  end.

(** The member that a pointer of one segment without escapes names. *)
Definition top_level (path : json) : option string :=
  match path with
  | JString (String c k) =>
      if Ascii.eqb c "/"
         && forallb (fun d => negb (Ascii.eqb d "/" || Ascii.eqb d "~"))
              (list_ascii_of_string k)
      then Some k else None
  | _ => None
  end.

Definition applyOperation (h : heap) (document : loc) (operation : json) : outcome unit :=
  match operation with
  | JObject ms =>
      match member "op" ms, member "path" ms ≫= top_level,
            member "value" ms ≫= primitive with
      | Some (JString op), Some key, Some v =>
          if String.eqb op "add" || String.eqb op "replace" then
            Return (alter (set_prop key v) document h) tt
          else if String.eqb op "test" then
            match get h (VRef document) key with
            | inr w =>
                if bool_decide (w = v) then Return h tt
                else Throw h (OtherError "TEST_OPERATION_FAILED")
            | inl e => Throw h e
            end
          else Throw h (OtherError "not covered")
      | _, _, _ => Throw h (OtherError "not covered")
      end
  | _ => Throw h (OtherError "not covered")
  end.

Fixpoint applyOperations (h : heap) (document : loc) (operations : list json)
    : outcome unit :=
  match operations with
  | [] => Return h tt
  | operation :: rest =>
      bind (applyOperation h document operation)
           (fun h' _ => applyOperations h' document rest)
  end.

#[export] Instance in_place : FastJsonPatch := {|
  applyPatch := fun h document patch =>
    match document, patch with
    | VRef l, JArray operations =>
        bind (applyOperations h l operations) (fun h' _ => Return h' document)
    | _, _ => Throw h (OtherError "not covered")
    end |}.

(** The document of the example, alone in its store. *)
Definition person : object :=
  Object KObject
    (<[ "age" := VNumber five ]>
       (<[ "name" := VString "old" ]> {[ "_id" := VString "x" ]})).
Definition people : heap := [person].

End AtomicityExample.

(** ** handle-validation-error.ts ([src/unnamed/part_002]) *)

(** A member of an object literal given to [res.send]: a text, the
    [message] of an error, the [errors] of a [ValidationError], a count, or
    a value that a call of the driver answered. *)
Inductive field :=
| FText (s : string)
| FMessageOf (e : error)
| FErrors (errors : list ErrorObject)
| FCount (n : N)
| FValue (v : value).

(** A response as [res.status(code).send({...})] leaves it; [res.send]
    alone answers 200. *)
Record Response := {
  statusCode : nat;
  sent : list (string * field) }.

(** [handleValidateError(e, res)]: the response it sends, or [e] thrown
    again. *)
Definition handleValidateError (e : error) : error + Response :=
  match e with
  | SyntaxError =>
      inr {| statusCode := 400;
             sent := [("error", FText "Invalid JSON payload");
                      ("jsonParseError", FMessageOf e)] |}
  | ValidationError errors =>
      inr {| statusCode := 400;
             sent := [("error", FText "Invalid payload");
                      ("validationErrors", FErrors errors)] |}
  | _ => inl e
  end.

(** [try { m } catch (e) { handleValidateError(e, res) }] around the body
    of an [async] handler: an outcome that throws is the rejection of the
    handler's promise. *)
Definition catch (m : outcome Response) : outcome Response :=
  match m with
  | Return h r => Return h r
  | Throw h e =>
      match handleValidateError e with
      | inr r => Return h r
      | inl e' => Throw h e'
      end
  end.

(** The response to a [SyntaxError]. *)
Definition invalid_JSON_payload : Response :=
  {| statusCode := 400;
     sent := [("error", FText "Invalid JSON payload");
              ("jsonParseError", FMessageOf SyntaxError)] |}.

(** ** with-db.ts: [resolveDb] and [withDb] (lines 4 to 54 of
    [src/src/with-db.ts]) *)

(** What may be thrown while a database is resolved, as the [instanceof]
    tests of [withDb] tell it apart: [MongoServerError] is a subclass of
    [MongoError]. *)
Inductive exception :=
| MongoServerError
| MongoError
| Error (message : string)
| Other (e : error).

Definition instanceof_MongoError (e : exception) : bool :=
  match e with MongoServerError | MongoError => true | _ => false end.

Definition instanceof_MongoServerError (e : exception) : bool :=
  match e with MongoServerError => true | _ => false end.

(** The driver: [new MongoClient(url)] and [client.db()]. *)
Class Mongo := {
  MongoClient : Type;
  Db : Type;
  new_MongoClient : string -> exception + MongoClient;
  client_db : MongoClient -> exception + Db }.

Section WithDb.
Context `{Mongo}.

(** The state the module works on: [process.env.MONGO_URL], the cache
    [clients] of line 4, in which an entry set to [undefined] is an entry
    that is not there, and the clients on which [close()] was called,
    oldest first. *)
Record Process := {
  MONGO_URL : option string;
  clients : gmap string MongoClient;
  closed : list MongoClient }.

(** The argument [db]: a function, given by what its call answers, a
    string, a [Db], or nothing. *)
Inductive DbOption :=
| DbFunction (call : exception + Db)
| DbString (url : string)
| DbObject (d : Db)
| DbUndefined.

Definition resolveDb (p : Process) (db : DbOption) : Process * (exception + Db) :=
  match db with
  | DbFunction call => (p, call)
  | _ =>
      let db := match db, MONGO_URL p with
                | DbUndefined, Some url => DbString url
                | _, _ => db
                end in
      match db with
      | DbString url =>
          match (match clients p !! url with
                 | Some client => inr client
                 | None => new_MongoClient url
                 end) with
          | inl e => (p, inl e)
          | inr client =>
              ({| MONGO_URL := MONGO_URL p;
                  clients := <[url := client]> (clients p);
                  closed := closed p |},
               client_db client)
          end
      | DbUndefined =>
          (p, inl (Error "The withDb() function was called w/o a db. Try setting MONGO_URL."))
      | DbObject d => (p, inr d)
      | DbFunction call => (p, call)
      end
  end.

(** [clients[mongoURL]?.close(); clients[mongoURL] = undefined] *)
Definition reset (mongoURL : string) (p : Process) : Process :=
  {| MONGO_URL := MONGO_URL p;
     clients := delete mongoURL (clients p);
     closed := (closed p ++ option_list (clients p !! mongoURL))%list |}.

(** What the middleware leaves when it returns: the state of the module,
    [req.locals], the response if one was sent, and whether [next] was
    called.  [req.locals] is [None] when the request has no such member,
    as a request of express has none until something gives it one, and
    [Some d] when it is an object whose [db] is [d]. *)
Record Served := {
  process : Process;
  locals_db : option (option Db);
  response : option Response;
  next_called : bool }.

Definition error_response (code : nat) (text : string) : Response :=
  {| statusCode := code; sent := [("error", FText text)] |}.

(** [withDb(db)(req, res, next)]: [locals_db] is [req.locals] as the
    request came, [next] tells whether a [next] was given.  In
    [req.locals.db = resolveDb(db)] the engine calls [resolveDb] first; on
    a request without [locals] the assignment then throws a [TypeError],
    which the [catch] answers as it answers any error that is no
    [MongoError]. *)
Definition withDb (db : DbOption) (p : Process) (locals_db : option (option Db))
    (next : bool) : exception + Served :=
  match MONGO_URL p with
  | Some mongoURL =>
      if Str.truthy mongoURL then
        match resolveDb p db with
        | (p1, inr d) =>
            match locals_db with
            | Some _ =>
                inr {| process := p1; locals_db := Some (Some d); response := None;
                       next_called := next |}
            | None =>
                inr {| process := p1; locals_db := None;
                       response := Some (error_response 500 "Unexpected error.");
                       next_called := next |}
            end
        | (p1, inl e) =>
            let p2 := if instanceof_MongoError e then reset mongoURL p1 else p1 in
            if instanceof_MongoServerError e then
              inr {| process := p2; locals_db := locals_db;
                     response := Some (error_response 503 "Mongo server is overloaded.");
                     next_called := false |}
            else if instanceof_MongoError e then
              inr {| process := p2; locals_db := locals_db;
                     response := Some (error_response 500 "Unexpected Mongo error.");
                     next_called := false |}
            else
              inr {| process := p2; locals_db := locals_db;
                     response := Some (error_response 500 "Unexpected error.");
                     next_called := next |}
        end
      else inl (Error "MONGO_URL not set")
  | None => inl (Error "MONGO_URL not set")
  end.

End WithDb.

(** ** MongoRestRouter ([src/unnamed/part_004]): the handlers of POST, PUT
    and PATCH

    The three handlers that call [validateBulk], [validate],
    [applyPatchRequest] and [handleValidateError].  They run on a request
    on which the middleware has put the database, whose collection is the
    class below. *)

(** What a filter asks of one field: to be a given value, or to be there or
    not ([$exists]). *)
Inductive condition :=
| Equals (v : value)
| Exists (b : bool).

(** The second argument of [updateOne]: [{ $set: document }], or a document
    as it is. *)
Inductive update :=
| SetOperator (document : value)
| Whole (document : value).

Record UpdateResult := {
  matchedCount : N;
  modifiedCount : N }.

(** The collection of the driver, as the handlers use it.  [findOne]
    answers [null] or a document, which it puts in the store; [insertMany]
    answers [result.insertedIds] and [insertOne] [result.insertedId].  A
    call that throws is a promise that is rejected.  What the calls do to
    the database is the driver's. *)
Class Collection := {
  findOne : heap -> gmap string condition -> outcome (option loc);
  insertMany : heap -> value -> outcome value;
  insertOne : heap -> value -> outcome value;
  updateOne : heap -> gmap string condition -> update -> outcome UpdateResult }.

(** The options that the three handlers read; an option that is not
    given is [false]. *)
Record MongoRestRouterOptions := {
  noPostBulk : bool;
  noManagedDates : bool;
  dateFieldOverrides : DateFields }.

Definition NotFoundMessage : string := "An entry with that id could not be found.".

(** The error of lines 151 to 157. *)
Definition expecting_an_object : ErrorObject :=
  {| keyword := EmptyString;
     instancePath := EmptyString;
     schemaPath := EmptyString;
     params := [];
     message := "Expecting an object" |}.

(** The hexadecimal digits of an [ObjectId] made from a string of 24 of
    them, which is what the pattern of the route lets through: the letters
    come back in lower case. *)
Definition lower_hex (id : string) : string :=
  string_of_list_ascii
    (map (fun c =>
            let n := nat_of_ascii c in
            if Nat.leb 65 n && Nat.leb n 70 then ascii_of_nat (n + 32) else c)
         (list_ascii_of_string id)).

(** [new ObjectId(id)] *)
Definition new_ObjectId (id : string) (h : heap) : heap * loc :=
  alloc h (Object (KObjectId (lower_hex id)) ∅).

(** [new Date()] at the time [now]. *)
Definition new_Date (now : Z) (h : heap) : heap * loc :=
  alloc h (Object (KDate now) ∅).

Section MongoRestRouter.
Context `{Engine} `{FastJsonPatch} `{Ajv} `{Collection}.
Variable schema : JSONSchema.
Variable options : MongoRestRouterOptions.

(** Line 67: the names of the three dates. *)
Definition addedField : string :=
  default "added" (added (dateFieldOverrides options)).
Definition lastModifiedField : string :=
  default "lastModified" (lastModified (dateFieldOverrides options)).
Definition deletedField : string :=
  default "deleted" (deleted (dateFieldOverrides options)).

Definition dateFields : DateFields :=
  {| added := Some addedField;
     lastModified := Some lastModifiedField;
     deleted := Some deletedField |}.

(** Line 72 *)
Definition validators : Validators := getValidate schema dateFields.

(** The filter of lines 98 to 101, 196 to 199 and 218 to 221: the identity,
    and no date of deletion unless the dates are not managed. *)
Definition criteria_of (id : value) : gmap string condition :=
  if noManagedDates options then {[ "_id" := Equals id ]}
  else <[deletedField := Exists false]> {[ "_id" := Equals id ]}.

Definition send (members : list (string * field)) : Response :=
  {| statusCode := 200; sent := members |}.

Definition not_found : Response :=
  {| statusCode := 404; sent := [("error", FText NotFoundMessage)] |}.

(** [x[dateFields.added] = now], the callback of line 162. *)
Definition stamp (d : loc) (h : heap) (x : value) : outcome value :=
  bind (assign h x addedField (VRef d)) (fun h' _ => Return h' VUndefined).

(** POST [/] (lines 145 to 179), with [req.body] as the JSON middleware
    left it in the store.  A body of JSON is a tree: no element of an array
    is the array. *)
Definition POST (now : Z) (h : heap) (body : value) : outcome Response :=
  catch
    (bind (validateBulk validators h body) (fun h1 payload =>
     if isArray h1 payload then
       if noPostBulk options then
         Throw h1 (ValidationError [expecting_an_object])
       else
         bind (if noManagedDates options then Return h1 tt
               else
                 let '(h2, d) := new_Date now h1 in
                 forEach_value (stamp d) h2
                   (match payload with VRef l => elements h2 l | _ => [] end))
              (fun h3 _ =>
         bind (insertMany h3 payload) (fun h4 insertedIds =>
         Return h4 (send [("insertedIds", FValue insertedIds)])))
     else
       bind (if noManagedDates options then Return h1 tt
             else
               let '(h2, d) := new_Date now h1 in
               assign h2 payload addedField (VRef d))
            (fun h3 _ =>
       bind (insertOne h3 payload) (fun h4 insertedId =>
       Return h4 (send [("insertedId", FValue insertedId)]))))).


(** Lines 228 to 240 of PATCH [/:id]: what the handler does with the
    document that [findOne] found. *)
Definition PATCH_found (now : Z) (h : heap) (origObject : loc) (req : Request)
    : outcome Response :=
  catch
    (bind (applyPatchRequest h origObject req) (fun h1 newObject =>
     bind (validate validators h1 newObject (Some true)) (fun h2 _ =>
     bind (if noManagedDates options then Return h2 tt
           else
             let '(h3, d) := new_Date now h2 in
             assign h3 newObject lastModifiedField (VRef d))
          (fun h4 _ =>
     try h4 (get h4 (VRef origObject) "_id") (fun orig_id =>
     bind (updateOne h4 {[ "_id" := Equals orig_id ]} (SetOperator newObject))
          (fun h5 result =>
     Return h5 (send [("modifiedCount", FCount (matchedCount result))]))))))).

(** PATCH [/:id] (lines 216 to 241) *)
Definition PATCH (now : Z) (h : heap) (id : string) (req : Request) : outcome Response :=
  let '(h0, oid) := new_ObjectId id h in
  bind (findOne h0 (criteria_of (VRef oid))) (fun h1 found =>
  match found with
  | None => Return h1 not_found
  | Some origObject => PATCH_found now h1 origObject req
  end).

End MongoRestRouter.

(** ** What the statements speak of *)

(** An operation of a JSON Patch as the schema wants it: an object with
    an [op] and a [path] that is a pointer; a [value] for [add], [replace]
    and [test], and a [from] that is a pointer for [move] and [copy]. *)
Definition well_formed_operation (item : json) : Prop :=
  exists ms op path,
    item = JObject ms
    /\ member "op" ms = Some (JString op)
    /\ member "path" ms = Some (JString path)
    /\ JsonPatchSchema.pattern path = true
    /\ ((In op ["add"; "replace"; "test"] /\ is_Some (member "value" ms))
        \/ op = "remove"
        \/ (In op ["move"; "copy"]
            /\ exists from, member "from" ms = Some (JString from)
                            /\ JsonPatchSchema.pattern from = true)).

(** The object [ob] is kept at [l] by the store [h']: its kind, the names
    of its properties, and the value of every property not named by one of
    [keys]. *)
Definition kept (keys : list string) (ob : object) (h' : heap) (l : loc) : Prop :=
  exists ob',
    h' !! l = Some ob'
    /\ kind ob' = kind ob
    /\ (forall k, is_Some (props ob !! k) -> is_Some (props ob' !! k))
    /\ (forall k, k ∉ keys -> props ob' !! k = props ob !! k).


(** ** A server for the examples

    A driver whose clients are their URLs and whose databases are named by
    the URL of their client, and that refuses to connect to the URL [bad];
    a collection that holds the document of the example store and answers
    every write with one document matched and modified. *)
Module ExampleServer.

#[export] Instance mongo : Mongo := {|
  MongoClient := string;
  Db := string;
  new_MongoClient := fun url => if String.eqb url "bad" then inl MongoError else inr url;
  client_db := fun client => inr client |}.

#[export] Instance collection : Collection := {|
  findOne := fun h _ => Return h (Some 2);
  insertMany := fun h _ => Return h VNull;
  insertOne := fun h _ => Return h VNull;
  updateOne := fun h _ _ => Return h {| matchedCount := 1; modifiedCount := 1 |} |}.

Definition defaults : MongoRestRouterOptions :=
  {| noPostBulk := false;
     noManagedDates := false;
     dateFieldOverrides := {| added := None; lastModified := None; deleted := None |} |}.


Definition url : string := "mongodb://localhost/test".

(** A process with [MONGO_URL] set and nothing cached, and the same once
    the client of that URL is cached. *)
Definition started : Process :=
  {| MONGO_URL := Some url; clients := ∅; closed := [] |}.

Definition cached : Process :=
  {| MONGO_URL := Some url; clients := <[url := url]> ∅; closed := [] |}.

(** What the middleware leaves of a request of express, which has no
    [locals], once the database is resolved. *)
Definition unserved : Served :=
  {| process := cached;
     locals_db := None;
     response := Some (error_response 500 "Unexpected error.");
     next_called := true |}.

(** A document whose [spouse] is [null], alone in its store. *)
Definition widowed : heap := [Object KObject {[ "spouse" := VNull ]}].

(** The request [?name=Joey] without a body, and the store that the patch
    of the example document leaves. *)
Definition rename : Request :=
  {| body := JObject []; query := [("name", Some "Joey")] |}.


(** The identity of the example document, in upper case. *)
Definition upper_id : string := "507F1F77BCF86CD799439011".

(** An engine that reads a date and no number in [Jan 1 2020], as an
    engine does; the time value is that of a host on UTC. *)
Definition dated : Engine := {|
  parseInt := fun _ => S754_nan;
  parseFloat := fun _ => S754_nan;
  Number_toString := fun _ => "NaN";
  Date_parse := fun s =>
    if String.eqb s "Jan 1 2020" then Some 1577836800000%Z else None;
  JSON_parse := fun _ => None |}.

End ExampleServer.

(** ** Proof steps *)

(** The cases of the coercion of [raw], in the order of the code: a
    literal, a quoted string, a finite number, a date or not. *)
Ltac coercion_cases raw :=
  destruct (List.find _ literals) as [?|]; simpl;
  [| destruct (quoted raw); simpl;
     [| destruct (lt_Infinity_and_gt_neg_Infinity _); simpl;
        [| destruct (Date_parse raw) as [?|]; simpl ]]].

(** * Facts *)


(** ** Strings *)

Example split_slash_nested :
  Str.split_slash "address/city" = ["address"; "city"].
Proof. reflexivity. Qed.

Example split_slash_empty_segments :
  Str.split_slash "/a//b" = [EmptyString; "a"; EmptyString; "b"].
Proof. reflexivity. Qed.

Example replace_first_only : Str.replace "~0" "/" "a~0b~0c" = "a/b~0c".
Proof. reflexivity. Qed.

Example replace_all_every : Str.replace_all "~0" "/" "a~0b~0c" = "a/b/c".
Proof. reflexivity. Qed.

Example slice_negative_end : Str.slice "abcdef" 1 (-1) = "bcde".
Proof. reflexivity. Qed.

(** A piece of a string split in two or more is shorter than the string. *)
Lemma split_slash_length s x :
  x ∈ Str.split_slash s ->
  String.length x <= String.length s
  /\ (2 <= length (Str.split_slash s) -> String.length x < String.length s).
Proof.
  revert x. induction s as [|c r IH]; intros x Hin; simpl in *.
  - apply list_elem_of_singleton in Hin as ->. simpl. split; lia.
  - destruct (Ascii.eqb c "/").
    + apply elem_of_cons in Hin as [->|Hin]; simpl; [split; lia|].
      destruct (IH _ Hin). split; lia.
    + destruct (Str.split_slash r) as [|x0 xs] eqn:E.
      * apply list_elem_of_singleton in Hin as ->. simpl. split; lia.
      * apply elem_of_cons in Hin as [->|Hin]; simpl.
        -- destruct (IH x0 (list_elem_of_here _ _)). simpl in *. split; lia.
        -- destruct (IH x (list_elem_of_further _ _ _ Hin)). simpl in *. split; lia.
Qed.

Lemma drop_length_prefix pat s :
  String.prefix pat s = true ->
  String.length (Str.drop (String.length pat) s) + String.length pat
  = String.length s.
Proof.
  revert s. induction pat as [|c pat IH]; intros [|d r]; simpl; try done; try lia.
  destruct (Ascii.ascii_dec c d); [|done]. intros Hp. specialize (IH r Hp). lia.
Qed.

Lemma append_length (a b : string) :
  String.length (a ++ b) = String.length a + String.length b.
Proof.
  induction a as [|c a IH]; [reflexivity|].
  change (String c a ++ b) with (String c (a ++ b)). simpl. by rewrite IH.
Qed.

(** A replacement no longer than its pattern does not lengthen the
    string. *)
Lemma replace_length pat rep s :
  String.length rep <= String.length pat ->
  String.length (Str.replace pat rep s) <= String.length s.
Proof.
  intros Hrep. induction s as [|c r IH].
  - cbn [Str.replace]. destruct (String.prefix pat EmptyString) eqn:Hp; [|done].
    rewrite append_length. pose proof (drop_length_prefix _ _ Hp). lia.
  - cbn [Str.replace]. destruct (String.prefix pat (String c r)) eqn:Hp.
    + rewrite append_length. pose proof (drop_length_prefix _ _ Hp). lia.
    + simpl. lia.
Qed.

(** Each key of a path of two or more keys is shorter than the path as it
    is written, and so is not the path. *)
Lemma split_keys_shorter keys x :
  2 <= length (split_keys keys) -> x ∈ split_keys keys ->
  String.length x < String.length keys.
Proof.
  unfold split_keys. rewrite length_map. intros Hlen Hin.
  apply list_elem_of_fmap in Hin as (y & -> & Hy).
  apply list_elem_of_In, filter_In in Hy as [Hy _]. apply list_elem_of_In in Hy.
  pose proof (List.filter_length_le Str.truthy (Str.split_slash keys)) as Hle.
  destruct (split_slash_length _ _ Hy) as [_ Hlt].
  assert (String.length (unescape y) <= String.length y).
  { unfold unescape.
    etransitivity; [apply replace_length; simpl; lia|].
    apply replace_length. simpl. lia. }
  specialize (Hlt ltac:(lia)). lia.
Qed.

Lemma split_keys_not_whole keys x :
  2 <= length (split_keys keys) -> x ∈ split_keys keys -> x <> keys.
Proof.
  intros Hlen Hin ->. pose proof (split_keys_shorter _ _ Hlen Hin). lia.
Qed.

(** ** The schema of a JSON Patch *)

Example conforms_add :
  JsonPatchSchema.conforms
    (JArray [JObject [("op", JString "add"); ("path", JString "/a~1b");
                      ("value", JNull)]]) = true.
Proof. reflexivity. Qed.

Example conforms_move :
  JsonPatchSchema.conforms
    (JArray [JObject [("op", JString "move"); ("from", JString "/a");
                      ("path", JString "/b")]]) = true.
Proof. reflexivity. Qed.

(** [~2] is no escape. *)
Example conforms_bad_escape :
  JsonPatchSchema.conforms
    (JArray [JObject [("op", JString "add"); ("path", JString "/a~2b");
                      ("value", JNull)]]) = false.
Proof. reflexivity. Qed.

Example conforms_missing_path :
  JsonPatchSchema.conforms (JArray [JObject [("op", JString "remove")]]) = false.
Proof. reflexivity. Qed.

(** A body that is still a text is no array. *)
Lemma conforms_text s : JsonPatchSchema.conforms (JString s) = false.
Proof. reflexivity. Qed.

(** ** The store *)

Lemma alter_set_prop_twice (h : heap) l k v w :
  alter (set_prop k v) l (alter (set_prop k w) l h) = alter (set_prop k v) l h.
Proof.
  rewrite list_alter_alter_eq.
  apply list_alter_ext; [|done].
  intros ob _. unfold compose, set_prop. simpl. by rewrite insert_insert_eq.
Qed.

Lemma bind_Return {A B} (m : outcome A) (k : heap -> A -> outcome B) h b :
  bind m k = Return h b ->
  exists h1 a, m = Return h1 a /\ k h1 a = Return h b.
Proof. destruct m as [h1 a|h1 e]; simpl; [eauto | discriminate]. Qed.

(** ** The path resolver *)

Section Resolver.
Context `{Engine}.

(** One step of the descent, for an [o] that is not [undefined]. *)
Lemma getPatchTarget_array_step h o k0 k1 rest :
  o <> VUndefined ->
  getPatchTarget_array h o (k0 :: k1 :: rest) =
  match get h o (if isArray h o then Number_toString (parseInt k0) else k0) with
  | inl e => inl e
  | inr v => getPatchTarget_array h v (k1 :: rest)
  end.
Proof. destruct o; simpl; congruence. Qed.

Lemma getPatchTarget_array_undefined h keys :
  getPatchTarget_array h VUndefined keys = inr VUndefined.
Proof. by destruct keys. Qed.

Lemma getPatchTarget_array_last h o keys :
  length keys <= 1 ->
  getPatchTarget_array h o keys
  = inr (if typeof_is_primitive o then VUndefined else o).
Proof.
  destruct keys as [|k0 [|k1 rest]]; simpl; intros Hlen; try lia;
    by destruct o.
Qed.

(** The resolver answers [undefined], [null] or an object, never a
    primitive. *)
Lemma getPatchTarget_array_result h o keys t :
  getPatchTarget_array h o keys = inr t ->
  t = VUndefined \/ t = VNull \/ exists l, t = VRef l.
Proof.
  revert o. induction keys as [|k0 rest IH]; intros o E.
  - rewrite getPatchTarget_array_last in E by (simpl; lia).
    destruct o; simpl in E; inversion E; eauto.
  - destruct rest as [|k1 rest'].
    + rewrite getPatchTarget_array_last in E by (simpl; lia).
      destruct o; simpl in E; inversion E; eauto.
    + destruct (decide (o = VUndefined)) as [->|Ho].
      * rewrite getPatchTarget_array_undefined in E. inversion E; eauto.
      * rewrite getPatchTarget_array_step in E by done.
        destruct (get h o _) as [e|v]; [discriminate|]. eapply IH, E.
Qed.

(** With at most one key left, an object is its own target. *)
Lemma getPatchTarget_array_root h l keys :
  length keys <= 1 -> getPatchTarget_array h (VRef l) keys = inr (VRef l).
Proof. intros Hlen. by rewrite getPatchTarget_array_last. Qed.

(** A target other than the root was read from a property of an object of
    the store. *)
Lemma getPatchTarget_array_read h o keys l :
  getPatchTarget_array h o keys = inr (VRef l) ->
  o = VRef l \/
  exists l' ob k, h !! l' = Some ob /\ props ob !! k = Some (VRef l).
Proof.
  revert o. induction keys as [|k0 rest IH]; intros o E.
  - rewrite getPatchTarget_array_last in E by (simpl; lia).
    destruct o; simpl in E; inversion E; eauto.
  - destruct rest as [|k1 rest'].
    + rewrite getPatchTarget_array_last in E by (simpl; lia).
      destruct o; simpl in E; inversion E; eauto.
    + destruct (decide (o = VUndefined)) as [->|Ho].
      * rewrite getPatchTarget_array_undefined in E. discriminate.
      * rewrite getPatchTarget_array_step in E by done.
        destruct (get h o _) as [e|v] eqn:G; [discriminate|].
        destruct (IH _ E) as [->|?]; [|by right].
        right. destruct o as [| | | | |l0]; simpl in G; try discriminate.
        destruct (h !! l0) as [ob|] eqn:Hl0; [|discriminate].
        destruct (props ob !! _) as [w|] eqn:Hk; simpl in G; [|discriminate].
        inversion G; subst w. eauto.
Qed.

(** The resolver fails only by reading a property of [null]. *)
Lemma getPatchTarget_array_error h o keys e :
  getPatchTarget_array h o keys = inl e -> e = TypeError.
Proof.
  revert o. induction keys as [|k0 rest IH]; intros o E.
  - rewrite getPatchTarget_array_last in E by (simpl; lia). discriminate.
  - destruct rest as [|k1 rest'].
    + rewrite getPatchTarget_array_last in E by (simpl; lia). discriminate.
    + destruct (decide (o = VUndefined)) as [->|Ho].
      * rewrite getPatchTarget_array_undefined in E. discriminate.
      * rewrite getPatchTarget_array_step in E by done.
        destruct (get h o _) as [e'|v] eqn:G; [|by eapply IH].
        inversion E; subst e'. destruct o; simpl in G; try by inversion G.
        destruct (h !! l); discriminate.
Qed.

End Resolver.

(** ** One query parameter *)

Section QueryParameter.
Context `{Engine}.

(** What is stored is never a reference: a literal, a string or a number. *)
Lemma coerced_not_ref raw l : coerced raw <> VRef l.
Proof.
  unfold coerced.
  destruct (List.find _ literals) as [lit|] eqn:F.
  - apply find_some in F as [Hin _]. simpl in Hin.
    destruct Hin as [<-|[<-|[<-|[<-|[]]]]]; discriminate.
  - destruct (quoted raw); [discriminate|].
    destruct (lt_Infinity_and_gt_neg_Infinity _); discriminate.
Qed.

Lemma transient_no_props raw : Forall (fun ob => props ob = ∅) (transient raw).
Proof.
  unfold transient. coercion_cases raw; repeat constructor.
Qed.

(** A resolved target and a value that is there: the coerced value is in the
    target under the whole [key], and the store has grown by the transient
    date, if any. *)
Lemma patchKey_assign q newObject h key l raw :
  getPatchTarget h newObject (inl key) = inr (VRef l) ->
  query_value q key = Some raw ->
  patchKey q newObject h key
  = Return (alter (set_prop key (coerced raw)) l (h ++ transient raw)%list) tt.
Proof.
  intros T V. unfold patchKey, try. rewrite T, V.
  unfold coerced, transient.
  coercion_cases raw; rewrite ?app_nil_r, ?alter_set_prop_twice; reflexivity.
Qed.

(** A target that is [null] makes the assignment throw. *)
Lemma patchKey_null q newObject h key raw :
  getPatchTarget h newObject (inl key) = inr VNull ->
  query_value q key = Some raw ->
  patchKey q newObject h key = Throw (h ++ transient raw)%list TypeError.
Proof.
  intros T V. unfold patchKey, try. rewrite T, V.
  unfold transient.
  coercion_cases raw; rewrite ?app_nil_r; reflexivity.
Qed.

(** The store after one parameter: the store before, grown by objects
    without properties, with at most one property written, named [key]. *)
Lemma patchKey_heap q l0 h key :
  exists extra,
    Forall (fun ob => props ob = ∅) extra /\
    (final_heap (patchKey q (VRef l0) h key) = (h ++ extra)%list
     \/ exists l raw,
          getPatchTarget h (VRef l0) (inl key) = inr (VRef l)
          /\ query_value q key = Some raw
          /\ patchKey q (VRef l0) h key
             = Return (alter (set_prop key (coerced raw)) l (h ++ extra)%list) tt).
Proof.
  destruct (getPatchTarget h (VRef l0) (inl key)) as [e|t] eqn:T.
  { exists []. split; [constructor|left].
    unfold patchKey, try. rewrite T. simpl. by rewrite app_nil_r. }
  destruct (query_value q key) as [raw|] eqn:V.
  2:{ exists []. split; [constructor|left].
      unfold patchKey, try. rewrite T, V. rewrite app_nil_r. by destruct t. }
  destruct (getPatchTarget_array_result _ _ _ _ T) as [->|[->|[l ->]]].
  - exists []. split; [constructor|left].
    unfold patchKey, try. rewrite T. simpl. by rewrite app_nil_r.
  - exists (transient raw). split; [apply transient_no_props|left].
    by rewrite (patchKey_null _ _ _ _ _ T V).
  - exists (transient raw). split; [apply transient_no_props|right].
    exists l, raw. split_and!; [done..|]. by apply patchKey_assign.
Qed.

(** The callback throws nothing but [TypeError]. *)
Lemma patchKey_Throw q l0 h key h' e :
  patchKey q (VRef l0) h key = Throw h' e -> e = TypeError.
Proof.
  intros E.
  destruct (getPatchTarget h (VRef l0) (inl key)) as [e'|t] eqn:T.
  { unfold patchKey, try in E. rewrite T in E. inversion E; subst.
    by eapply getPatchTarget_array_error. }
  destruct (query_value q key) as [raw|] eqn:V.
  2:{ unfold patchKey, try in E. rewrite T, V in E. by destruct t. }
  destruct (getPatchTarget_array_result _ _ _ _ T) as [->|[->|[l ->]]].
  - unfold patchKey, try in E. rewrite T in E. discriminate.
  - rewrite (patchKey_null _ _ _ _ _ T V) in E. by inversion E.
  - rewrite (patchKey_assign _ _ _ _ _ _ T V) in E. discriminate.
Qed.

End QueryParameter.

(** ** The loop over the query *)

Lemma final_heap_bind {A B} (m : outcome A) (k : heap -> A -> outcome B) :
  final_heap (bind m k)
  = match m with Return h a => final_heap (k h a) | Throw h _ => h end.
Proof. by destruct m. Qed.

Lemma forEach_app f h (a b : list string) :
  forEach f h (a ++ b) = bind (forEach f h a) (fun h' _ => forEach f h' b).
Proof.
  revert h. induction a as [|x a IH]; intros h; simpl; [done|].
  destruct (f h x) as [h1 []|h1 e]; simpl; [apply IH | done].
Qed.

(** A property of the store that every callback keeps is kept by the loop,
    whether the loop ends or throws. *)
Lemma forEach_final_heap (P : heap -> Prop) f (keys : list string) :
  (forall h key, key ∈ keys -> P h -> P (final_heap (f h key))) ->
  forall h, P h -> P (final_heap (forEach f h keys)).
Proof.
  induction keys as [|x keys IH]; intros Hf h Hh; simpl; [done|].
  rewrite final_heap_bind.
  pose proof (Hf h x (list_elem_of_here _ _) Hh) as Hx.
  destruct (f h x) as [h1 []|h1 e]; simpl in *; [|done].
  apply IH; [|done]. intros h' key Hin. apply Hf. by apply list_elem_of_further.
Qed.

Section Loop.
Context `{Engine}.

Lemma patchKey_length q l0 h key :
  length h <= length (final_heap (patchKey q (VRef l0) h key)).
Proof.
  destruct (patchKey_heap q l0 h key) as (extra & _ & [->|(l & raw & _ & _ & ->)]);
    simpl; rewrite ?length_alter, length_app; lia.
Qed.

(** A property that holds is kept by a parameter with another key. *)
Lemma patchKey_holds_other q l0 h key l k v :
  k <> key -> holds h l k v ->
  holds (final_heap (patchKey q (VRef l0) h key)) l k v.
Proof.
  intros Hk (ob & Hl & Hv).
  assert (Hlt : l < length h) by (eapply lookup_lt_Some; eauto).
  destruct (patchKey_heap q l0 h key) as (extra & _ & [->|(l' & raw & _ & _ & ->)]).
  - exists ob. by rewrite lookup_app_l by lia.
  - simpl. destruct (decide (l' = l)) as [->|Hne].
    + exists (set_prop key (coerced raw) ob). split.
      * by rewrite list_lookup_alter_eq, lookup_app_l, Hl by lia.
      * simpl. by rewrite lookup_insert_ne.
    + exists ob. by rewrite list_lookup_alter_ne, lookup_app_l by (done || lia).
Qed.

Lemma forEach_holds_other q l0 keys h l k v :
  k ∉ keys -> holds h l k v ->
  holds (final_heap (forEach (patchKey q (VRef l0)) h keys)) l k v.
Proof.
  intros Hk Hh.
  apply (forEach_final_heap (fun h => holds h l k v)); [|done].
  intros h' key Hin Hh'. apply patchKey_holds_other; [|done].
  intros ->. contradiction.
Qed.

Lemma forEach_length q l0 keys h :
  length h <= length (final_heap (forEach (patchKey q (VRef l0)) h keys)).
Proof.
  apply (forEach_final_heap (fun h' => length h <= length h')); [|done].
  intros h' key _ Hh'. pose proof (patchKey_length q l0 h' key). lia.
Qed.

(** The loop throws what one of its callbacks throws. *)
Lemma forEach_Throw q l0 keys h h' e :
  forEach (patchKey q (VRef l0)) h keys = Throw h' e -> e = TypeError.
Proof.
  revert h. induction keys as [|k keys IH]; intros h; simpl; [discriminate|].
  destruct (patchKey q (VRef l0) h k) as [h1 []|h1 e'] eqn:S; simpl; [apply IH|].
  intros E. inversion E; subst. by eapply patchKey_Throw.
Qed.

(** A mapping has one value per key. *)
Lemma query_value_elem (q : list (string * option string)) key v :
  NoDup (map fst q) -> (key, v) ∈ q -> query_value q key = v.
Proof.
  unfold query_value.
  induction q as [|[k w] q IH]; intros Hnd Hin; [by apply elem_of_nil in Hin|].
  apply NoDup_cons in Hnd as [Hk Hnd]. simpl.
  apply elem_of_cons in Hin as [Heq|Hin].
  - inversion Heq; subst. by rewrite String.eqb_refl.
  - destruct (String.eqb k key) eqn:E; [|by apply IH].
    apply String.eqb_eq in E as ->. exfalso. apply Hk.
    apply list_elem_of_fmap. by exists (key, v).
Qed.

(** The original is never a target, and nothing comes to refer to it. *)
Lemma patchKey_keeps_original q h0 orig l0 h key :
  orig < length h0 -> l0 <> orig ->
  length h0 <= length h /\ h !! orig = h0 !! orig /\ unreferenced h orig ->
  let h' := final_heap (patchKey q (VRef l0) h key) in
  length h0 <= length h' /\ h' !! orig = h0 !! orig /\ unreferenced h' orig.
Proof.
  intros Ho Hl0 (Hlen & Horig & Hun). simpl.
  split; [pose proof (patchKey_length q l0 h key); lia|].
  assert (Hextra : forall extra,
             Forall (fun ob => props ob = ∅) extra ->
             unreferenced (h ++ extra) orig).
  { intros extra Hex. apply Forall_app. split; [done|].
    eapply Forall_impl; [exact Hex|]. intros ob ->. apply map_Forall_empty. }
  destruct (patchKey_heap q l0 h key) as (extra & Hex & [->|(l & raw & T & _ & ->)]).
  - split; [by rewrite lookup_app_l by lia | by apply Hextra].
  - simpl.
    assert (l <> orig) as Hne.
    { apply getPatchTarget_array_read in T as [E|(l' & ob & k & Hl' & Hk)].
      - inversion E; subst; done.
      - intros ->. unfold unreferenced in Hun.
        rewrite Forall_lookup in Hun. by apply (Hun _ _ Hl' _ _ Hk). }
    split.
    + by rewrite list_lookup_alter_ne, lookup_app_l by (done || lia).
    + apply Forall_alter; [by apply Hextra|].
      intros ob _ Hob. simpl. apply map_Forall_insert_2; [|done].
      apply coerced_not_ref.
Qed.

(** A parameter whose path resolves to the object at [l] writes there under
    its whole [key]; every other property of that object, the one named by
    the last segment of the path among them, is as before. *)
Lemma patchKey_writes_under_whole_key q newObject h key l raw :
  getPatchTarget h newObject (inl key) = inr (VRef l) ->
  query_value q key = Some raw ->
  l < length h ->
  exists h',
    patchKey q newObject h key = Return h' tt
    /\ holds h' l key (coerced raw)
    /\ forall k v, k <> key -> holds h l k v -> holds h' l k v.
Proof.
  intros T V Hl. eexists. split; [by apply patchKey_assign|].
  destruct (h !! l) as [ob|] eqn:Hob.
  2:{ apply lookup_ge_None in Hob. lia. }
  split.
  - exists (set_prop key (coerced raw) ob). split.
    + by rewrite list_lookup_alter_eq, lookup_app_l, Hob by lia.
    + simpl. apply lookup_insert_eq.
  - intros k v Hk (ob' & Hob' & Hv). rewrite Hob in Hob'. inversion Hob'; subst ob'.
    exists (set_prop key (coerced raw) ob). split.
    + by rewrite list_lookup_alter_eq, lookup_app_l, Hob by lia.
    + simpl. by rewrite lookup_insert_ne.
Qed.

(** So a nested parameter never reaches the field its path names: the
    property named by any of its segments, the last one among them, keeps
    its value, and the coerced value sits beside it under the whole key. *)
Lemma patchKey_misses_the_named_field q newObject h key l raw segment v :
  2 <= length (split_keys key) ->
  segment ∈ split_keys key ->
  getPatchTarget h newObject (inl key) = inr (VRef l) ->
  query_value q key = Some raw ->
  holds h l segment v ->
  exists h',
    patchKey q newObject h key = Return h' tt
    /\ holds h' l key (coerced raw)
    /\ holds h' l segment v.
Proof.
  intros Hlen Hseg T V Hv.
  assert (Hl : l < length h).
  { destruct Hv as (ob & Hob & _). eapply lookup_lt_Some; eauto. }
  destruct (patchKey_writes_under_whole_key q newObject h key l raw T V Hl)
    as (h' & E & Hkey & Hother).
  exists h'. split_and!; [done..|].
  apply Hother; [|done]. by eapply split_keys_not_whole.
Qed.

End Loop.

(** ** applyPatchRequest, patching by query parameters *)

Section QueryPatch.
Context `{Engine} `{FastJsonPatch}.

Lemma check_id_final_heap h origObject newObject :
  final_heap (check_id h origObject newObject) = h.
Proof.
  unfold check_id, try.
  repeat match goal with
         | |- context [match ?x with _ => _ end] => destruct x; simpl; try done
         end.
Qed.

Lemma check_id_Return h origObject newObject h' r :
  check_id h origObject newObject = Return h' r -> h' = h /\ r = newObject.
Proof.
  unfold check_id, try. intros E.
  repeat match type of E with
         | context [match ?x with _ => _ end] => destruct x; simpl in E; try done
         end.
  by inversion E.
Qed.

(** With an empty body the request is a patch by query parameters: the
    working copy is the object allocated at [length h]. *)
Lemma applyPatchRequest_query h origObject req :
  Object_keys_length (body req) = Some 0 ->
  applyPatchRequest h origObject req
  = bind (bind (forEach (patchKey (query req) (VRef (length h)))
                  (spread h origObject).1
                  (List.filter Str.truthy (map fst (query req))))
            (fun h2 _ => Return h2 (VRef (length h))))
      (fun h' newObject => check_id h' origObject newObject).
Proof. intros E. unfold applyPatchRequest. by rewrite E. Qed.

Lemma get_identity h l : get h (VRef l) "_id" = inr (identity h l).
Proof. unfold get, identity. by destruct (h !! l). Qed.

Lemma identity_app h extra l :
  Forall (fun ob => props ob = ∅) extra ->
  identity (h ++ extra) l = identity h l.
Proof.
  intros Hex. unfold identity.
  destruct (decide (l < length h)) as [Hl|Hl].
  - by rewrite lookup_app_l.
  - rewrite lookup_app_r by lia.
    rewrite (proj2 (lookup_ge_None h l)) by lia. simpl.
    destruct (extra !! (l - length h)) as [ob|] eqn:Hob; [|done]. simpl.
    rewrite Forall_lookup in Hex. rewrite (Hex _ _ Hob). done.
Qed.

Lemma identity_alter_other (h : heap) l k v x :
  k <> "_id" -> identity (alter (set_prop k v) l h) x = identity h x.
Proof.
  intros Hk. unfold identity.
  destruct (decide (l = x)) as [->|Hne].
  - rewrite list_lookup_alter_eq. destruct (h !! x) as [ob|]; [|done].
    simpl. by rewrite lookup_insert_ne.
  - by rewrite list_lookup_alter_ne.
Qed.

(** The identity of the working copy is that of the original until a
    parameter [_id] replaces it, and then it is no object at all. *)
Lemma patchKey_identity q orig new h key :
  new < length h ->
  identity h new = identity h orig \/ (forall l, identity h new <> VRef l) ->
  let h' := final_heap (patchKey q (VRef new) h key) in
  identity h' new = identity h' orig \/ (forall l, identity h' new <> VRef l).
Proof.
  intros Hnew K. simpl.
  destruct (patchKey_heap q new h key) as (extra & Hex & [->|(l & raw & T & _ & ->)]).
  - by rewrite !identity_app.
  - simpl. destruct (decide (key = "_id")) as [->|Hk].
    + right. intros l'.
      assert (l = new) as ->.
      { unfold getPatchTarget in T.
        rewrite getPatchTarget_array_root in T by (simpl; lia). by inversion T. }
      unfold identity. rewrite list_lookup_alter_eq, lookup_app_l by lia.
      destruct (h !! new) as [ob|] eqn:Hob.
      2:{ apply lookup_ge_None in Hob. lia. }
      simpl. rewrite lookup_insert_eq. simpl. apply coerced_not_ref.
    + by rewrite !identity_alter_other, !identity_app.
Qed.

(** In the query encoding the call returns or throws [TypeError]: the
    [ValidationError] of line 150 is never reached, whatever the document
    and the parameters. *)
Lemma query_patch_returns_or_throws_TypeError h origObject q :
  (exists h' r,
      applyPatchRequest h origObject {| body := JObject []; query := q |}
      = Return h' r)
  \/ (exists h',
         applyPatchRequest h origObject {| body := JObject []; query := q |}
         = Throw h' TypeError).
Proof.
  rewrite applyPatchRequest_query by reflexivity. simpl.
  set (keys := List.filter Str.truthy (map fst q)).
  set (h1 := (h ++ [_])%list).
  pose proof (forEach_final_heap
    (fun h' => length h < length h'
               /\ (identity h' (length h) = identity h' origObject
                   \/ forall l, identity h' (length h) <> VRef l))
    (patchKey q (VRef (length h))) keys) as Inv.
  specialize (Inv
    (fun h' key _ '(conj L K) =>
       conj (Nat.lt_le_trans _ _ _ L (patchKey_length q (length h) h' key))
            (patchKey_identity q origObject (length h) h' key L K)) h1).
  destruct (forEach (patchKey q (VRef (length h))) h1 keys) as [h2 []|h2 e] eqn:Loop.
  2:{ right. exists h2. simpl. f_equal. by eapply forEach_Throw. }
  simpl in *.
  destruct Inv as [_ K].
  { subst h1. split; [rewrite length_app; simpl; lia|]. left.
    unfold identity. rewrite list_lookup_middle by done. simpl.
    destruct (decide (origObject < length h)) as [Ho|Ho].
    - rewrite lookup_app_l by done. by destruct (h !! origObject).
    - rewrite (proj2 (lookup_ge_None h origObject)) by lia. simpl.
      rewrite lookup_empty.
      destruct (decide (origObject = length h)) as [->|Hne].
      + rewrite list_lookup_middle by done. simpl. by rewrite lookup_empty.
      + rewrite (proj2 (lookup_ge_None _ origObject)); [done|].
        rewrite length_app. simpl. lia. }
  unfold check_id, try. rewrite !get_identity.
  destruct (toHexString h2 (identity h2 origObject)) as [e|a] eqn:Ta.
  { right. exists h2. f_equal.
    destruct (identity h2 origObject); simpl in Ta; try by inversion Ta.
    destruct (kind <$> h2 !! l) as [[]|]; by inversion Ta. }
  destruct K as [K|K].
  - rewrite K, Ta, String.eqb_refl. left. eauto.
  - right. exists h2.
    destruct (identity h2 (length h)) as [| | | | |l]; simpl; try done.
    by destruct (K l).
Qed.

(** One parameter with a single segment, other than [_id], on a document
    whose [_id] is an [ObjectId]: the call returns, and the working copy
    holds the coerced value under the key. *)
Lemma query_patch_single_parameter_returns h origObject ob i oid hex key raw :
  h !! origObject = Some ob ->
  props ob !! "_id" = Some (VRef i) ->
  h !! i = Some oid ->
  kind oid = KObjectId hex ->
  length (split_keys key) = 1 ->
  key <> "_id" ->
  exists h',
    applyPatchRequest h origObject
      {| body := JObject []; query := [(key, Some raw)] |}
    = Return h' (VRef (length h))
    /\ holds h' (length h) key (coerced raw).
Proof.
  intros Ho Hid Hi Hkind Hseg Hkey.
  assert (Hlo : origObject < length h) by (eapply lookup_lt_Some; eauto).
  assert (Hli : i < length h) by (eapply lookup_lt_Some; eauto).
  rewrite applyPatchRequest_query by reflexivity. simpl.
  assert (Str.truthy key = true) as -> by (destruct key; [discriminate Hseg | done]).
  simpl.
  rewrite (patchKey_assign _ _ _ _ (length h) raw).
  2:{ unfold getPatchTarget. apply getPatchTarget_array_root. lia. }
  2:{ apply query_value_elem; [apply NoDup_singleton | apply list_elem_of_here]. }
  simpl. rewrite Ho. simpl.
  set (h2 := alter _ _ _).
  assert (Hnew : h2 !! length h
                 = Some (set_prop key (coerced raw) (Object KObject (props ob)))).
  { subst h2. rewrite list_lookup_alter_eq, lookup_app_l, list_lookup_middle
      by (rewrite ?length_app; simpl; lia || done). done. }
  exists h2. split.
  - unfold check_id, try. rewrite !get_identity.
    assert (identity h2 origObject = VRef i) as ->.
    { unfold identity. subst h2.
      rewrite list_lookup_alter_ne, !lookup_app_l, Ho
        by (rewrite ?length_app; simpl; lia). simpl. by rewrite Hid. }
    assert (identity h2 (length h) = VRef i) as ->.
    { unfold identity. rewrite Hnew. simpl. by rewrite lookup_insert_ne, Hid. }
    assert (toHexString h2 (VRef i) = inr hex) as ->.
    { unfold toHexString. subst h2.
      rewrite list_lookup_alter_ne, !lookup_app_l, Hi
        by (rewrite ?length_app; simpl; lia). simpl. by rewrite Hkind. }
    by rewrite String.eqb_refl.
  - eexists. split; [exact Hnew|]. simpl. apply lookup_insert_eq.
Qed.

(** A query parameter whose path has a single segment has the root of the
    working copy as its container, whatever the document holds; and in the
    document the call returns, the key of the parameter (the query key as
    written, which is the segment itself when it has no [/] and no [~])
    holds the value as the code coerces it, whether or not the original had
    such a field.  The query is a mapping: no key twice.  The key is not
    [__proto__], to which an assignment makes no property. *)
Lemma single_segment_lands_under_the_written_key
    h origObject req key raw h' r :
  Object_keys_length (body req) = Some 0 ->
  NoDup (map fst (query req)) ->
  (key, Some raw) ∈ query req ->
  length (split_keys key) = 1 ->
  key <> "__proto__" ->
  applyPatchRequest h origObject req = Return h' r ->
  (forall h1, getPatchTarget h1 (VRef (length h)) (inl key) = inr (VRef (length h)))
  /\ r = VRef (length h)
  /\ holds h' (length h) key (coerced raw).
Proof.
  intros Hbody Hnd Hin Hseg _ Hret.
  assert (Htarget : forall h1, getPatchTarget h1 (VRef (length h)) (inl key)
                               = inr (VRef (length h))).
  { intros h1. unfold getPatchTarget. apply getPatchTarget_array_root. lia. }
  split; [exact Htarget|].
  rewrite applyPatchRequest_query in Hret by done.
  apply bind_Return in Hret as (h2 & n & Hloop & Hcheck).
  apply bind_Return in Hloop as (h3 & [] & Hloop & Hn).
  inversion Hn; subst h3 n; clear Hn.
  apply check_id_Return in Hcheck as [-> ->].
  split; [done|].
  (* the key is one of the keys the loop visits *)
  assert (Hkey : key ∈ List.filter Str.truthy (map fst (query req))).
  { apply list_elem_of_In, filter_In. split.
    - apply list_elem_of_In, list_elem_of_fmap. by exists (key, Some raw).
    - destruct key; [discriminate Hseg | done]. }
  assert (Hnd' : NoDup (List.filter Str.truthy (map fst (query req)))).
  { apply NoDup_ListNoDup, List.NoDup_filter, NoDup_ListNoDup, Hnd. }
  apply list_elem_of_split in Hkey as (pre & post & Hsplit).
  rewrite Hsplit in Hnd', Hloop.
  apply NoDup_app in Hnd' as (_ & _ & Hpost).
  apply NoDup_cons in Hpost as [Hpost _].
  rewrite forEach_app in Hloop.
  apply bind_Return in Hloop as (ha & [] & Hpre & Hrest).
  simpl in Hrest.
  apply bind_Return in Hrest as (hb & [] & Hstep & Hpost_loop).
  (* the store never shrinks, so the working copy is still there *)
  assert (Hlen : length h < length ha).
  { pose proof (forEach_length (query req) (length h) pre (spread h origObject).1) as L.
    rewrite Hpre in L. simpl in L. rewrite length_app in L. simpl in L. lia. }
  rewrite (patchKey_assign _ _ _ _ (length h) raw) in Hstep;
    [|apply Htarget | by apply query_value_elem].
  inversion Hstep; subst hb; clear Hstep.
  pose proof (forEach_holds_other (query req) (length h) post
                (alter (set_prop key (coerced raw)) (length h) (ha ++ transient raw)%list)
                (length h) key (coerced raw) Hpost) as Hkeep.
  rewrite Hpost_loop in Hkeep. simpl in Hkeep. apply Hkeep.
  destruct (ha !! length h) as [ob|] eqn:Hob.
  2:{ apply lookup_ge_None in Hob. lia. }
  exists (set_prop key (coerced raw) ob). split.
  - by rewrite list_lookup_alter_eq, lookup_app_l, Hob by lia.
  - simpl. apply lookup_insert_eq.
Qed.

(** C7, as amended.  A patch by query parameters leaves the original
    document's own properties as they were, whether the call returns or
    throws, and what it returns is a new object: the working copy is a
    shallow clone.  (The containers the original refers to are shared with
    the clone.)  The original is an object of the store to which no
    property refers. *)
Theorem C7_query_patch_keeps_original_top_level h origObject req :
  Object_keys_length (body req) = Some 0 ->
  origObject < length h ->
  unreferenced h origObject ->
  final_heap (applyPatchRequest h origObject req) !! origObject = h !! origObject
  /\ forall h' r, applyPatchRequest h origObject req = Return h' r ->
                  r = VRef (length h) /\ r <> VRef origObject.
Proof.
  intros Hbody Ho Hun.
  rewrite applyPatchRequest_query by done.
  split.
  - set (keys := List.filter Str.truthy (map fst (query req))).
    set (h1 := (spread h origObject).1).
    assert (Inv : length h <= length (final_heap
                    (forEach (patchKey (query req) (VRef (length h))) h1 keys))
                  /\ final_heap (forEach (patchKey (query req) (VRef (length h))) h1 keys)
                       !! origObject = h !! origObject
                  /\ unreferenced (final_heap
                       (forEach (patchKey (query req) (VRef (length h))) h1 keys))
                       origObject).
    { apply (forEach_final_heap
               (fun h' => length h <= length h' /\ h' !! origObject = h !! origObject
                          /\ unreferenced h' origObject)).
      - intros h' key _ Hh'. apply patchKey_keeps_original; [done|lia|done].
      - subst h1. unfold spread. simpl. split_and!.
        + rewrite length_app. lia.
        + by rewrite lookup_app_l.
        + apply Forall_app. split; [done|]. constructor; [|constructor].
          simpl. destruct (h !! origObject) as [ob|] eqn:Hob; simpl.
          * unfold unreferenced in Hun. rewrite Forall_lookup in Hun. eauto.
          * apply map_Forall_empty. }
    destruct Inv as (_ & Inv & _).
    rewrite !final_heap_bind.
    destruct (forEach _ h1 keys) as [h2 []|h2 e]; simpl in *; [|done].
    by rewrite check_id_final_heap.
  - intros h' r Hret.
    apply bind_Return in Hret as (h2 & n & Hloop & Hcheck).
    apply bind_Return in Hloop as (h3 & [] & Hloop & Hn).
    inversion Hn; subst h3 n.
    apply check_id_Return in Hcheck as [-> ->].
    split; [done|]. intros E. inversion E. lia.
Qed.

End QueryPatch.

(** ** The examples of the query patch, run on the example host *)

Section QueryPatchExamples.
Import ExampleHost.

(** C7, as the claim states it, fails: the original document of the example
    store refers to its [address] before and after the patch, and the patch
    of the path [address/city] has written into that very object. *)
Lemma C7_counterexample :
  get store (VRef 2) "address" = inr (VRef 1)
  /\ store !! 1 = Some (Object KObject {[ "city" := VString "Rome" ]})
  /\ get (final_heap
            (applyPatchRequest store 2
               {| body := JObject []; query := [("address/city", Some "true")] |}))
         (VRef 2) "address" = inr (VRef 1)
  /\ final_heap
       (applyPatchRequest store 2
          {| body := JObject []; query := [("address/city", Some "true")] |})
     !! 1
     = Some (Object KObject
               (<[ "address/city" := VBool true ]> {[ "city" := VString "Rome" ]})).
Proof. split_and!; vm_compute; reflexivity. Qed.

Lemma C7_witness :
  final_heap
    (applyPatchRequest store 2
       {| body := JObject []; query := [("address/city", Some "true")] |})
  !! 2 = store !! 2.
Proof.
  refine (proj1
    (C7_query_patch_keeps_original_top_level store 2
       {| body := JObject []; query := [("address/city", Some "true")] |} _ _ _)).
  - reflexivity.
  - simpl. lia.
  - unfold unreferenced, store. repeat constructor; simpl.
    + apply map_Forall_empty.
    + apply map_Forall_singleton. discriminate.
    + apply map_Forall_insert_2; [discriminate|].
      apply map_Forall_singleton. discriminate.
Defined.

End QueryPatchExamples.

(** ** Where the code parts from its specification *)

(** C6.  The string form of a path is split on [/] and the empty segments
    are dropped, but the unescaping is not the one stated: [~1] becomes [~]
    and [~0] becomes [/], and only the first occurrence of each is
    replaced.  The specified resolver would answer the second component of
    each pair below. *)
Theorem C6_split_keys_swaps_the_escapes :
  (split_keys "a~1b", spec_split_keys "a~1b") = (["a~b"], ["a/b"])
  /\ (split_keys "a~0b", spec_split_keys "a~0b") = (["a/b"], ["a~b"])
  /\ (split_keys "/x~1y~1z//w", spec_split_keys "/x~1y~1z//w")
     = (["x~y~1z"; "w"], ["x/y/z"; "w"]).
Proof. split_and!; reflexivity. Qed.

Section Divergences.
Context `{Engine} `{FastJsonPatch}.

(** The code and the five rules agree on the four literal tokens. *)
Lemma coerced_literal raw v :
  (raw, v) ∈ literals -> coerced raw = v /\ spec_coerce raw = Plain v.
Proof.
  unfold literals. intros Hin.
  repeat (apply elem_of_cons in Hin as [Hin|Hin];
          [inversion Hin; subst; split; reflexivity|]).
  by apply elem_of_nil in Hin.
Qed.

(** A string in which the engine reads a date and no number: the rules give
    a date, the code stores the raw string. *)
Lemma coerced_date_is_the_raw_string raw t :
  List.find (fun l => String.eqb raw (fst l)) literals = None ->
  quoted raw = false ->
  lt_Infinity_and_gt_neg_Infinity (parseFloat raw) = false ->
  Date_parse raw = Some t ->
  coerced raw = VString raw /\ spec_coerce raw = DateValue t.
Proof.
  intros L Q N D. unfold coerced, spec_coerce. rewrite L, Q, N, D.
  split; [done|].
  simpl in L.
  repeat match type of L with
         | context [String.eqb raw ?s] => destruct (String.eqb raw s); [discriminate|]
         end.
  done.
Qed.

(** C4.  The quoted string [42] between two double quotes is coerced to the
    string [4]: the slice of line 118 ends one character early.  The five
    rules give [42].  Run on the example document, whatever the engine: the
    working copy gets [age] with the value [4]. *)
Theorem C4_quoted_string_loses_its_last_character :
  coerced ExampleHost.quoted_42 = VString "4"
  /\ spec_coerce ExampleHost.quoted_42 = Plain (VString "42")
  /\ applyPatchRequest ExampleHost.store 2
       {| body := JObject []; query := [("age", Some ExampleHost.quoted_42)] |}
     = Return (ExampleHost.store
               ++ [set_prop "age" (VString "4") ExampleHost.document])%list
         (VRef 3).
Proof. split_and!; vm_compute; reflexivity. Qed.

(** C5.  The parameter [address/city=true] resolves the [address] of the
    example document as its container, and the value is stored there under
    the whole key [address/city]: the field [city], which the path names,
    keeps its old value. *)
Theorem C5_nested_path_is_stored_under_the_whole_key :
  applyPatchRequest ExampleHost.store 2
    {| body := JObject []; query := [("address/city", Some "true")] |}
  = Return [ExampleHost.objectId;
            Object KObject
              (<[ "address/city" := VBool true ]> {[ "city" := VString "Rome" ]});
            ExampleHost.document;
            ExampleHost.document]
      (VRef 3).
Proof. vm_compute. reflexivity. Qed.

(** C10.  The parameter whose key is [/name] has the single segment [name]
    and the root of the working copy as its container, and its value is
    the quoted string [42].  The document that comes back has no field
    [name]: the value sits under [/name], the key as it is written, and it
    is the string [4], not the [42] of the five rules. *)
Theorem C10_single_segment_is_stored_under_the_written_key :
  split_keys "/name" = ["name"]
  /\ (forall h, getPatchTarget h (VRef 3) (inl "/name") = inr (VRef 3))
  /\ spec_coerce ExampleHost.quoted_42 = Plain (VString "42")
  /\ applyPatchRequest ExampleHost.store 2
       {| body := JObject [];
          query := [("/name", Some ExampleHost.quoted_42)] |}
     = Return (ExampleHost.store
               ++ [set_prop "/name" (VString "4") ExampleHost.document])%list
         (VRef 3)
  /\ props (set_prop "/name" (VString "4") ExampleHost.document) !! "name" = None.
Proof. split_and!; try (intros h); vm_compute; reflexivity. Qed.

(** C1.  A query parameter [_id], whatever its value and whatever the
    document, makes the call throw a [TypeError], not the
    [ValidationError]: the coerced value is no [ObjectId], and line 142
    calls [toHexString] on it. *)
Theorem C1_query_id_change_throws_TypeError h origObject raw :
  exists h',
    applyPatchRequest h origObject
      {| body := JObject []; query := [("_id", Some raw)] |}
    = Throw h' TypeError.
Proof.
  rewrite applyPatchRequest_query by reflexivity. simpl.
  rewrite (patchKey_assign _ _ _ _ (length h) raw);
    [|reflexivity | reflexivity].
  simpl. unfold spread, alloc. simpl.
  set (h2 := alter _ _ _).
  exists h2. unfold check_id, try.
  destruct (get h2 (VRef origObject) "_id") as [e|oid] eqn:G1.
  { unfold get in G1. destruct (h2 !! origObject); discriminate. }
  destruct (toHexString h2 oid) as [e|a] eqn:T1.
  { destruct oid; simpl in T1; try (by inversion T1).
    destruct (kind <$> h2 !! l) as [[]|]; by inversion T1. }
  assert (G2 : get h2 (VRef (length h)) "_id" = inr (coerced raw)).
  { subst h2. simpl.
    rewrite list_lookup_alter_eq, lookup_app_l, list_lookup_middle
      by (rewrite ?length_app; simpl; lia || done).
    simpl. by rewrite lookup_insert_eq. }
  rewrite G2.
  pose proof (coerced_not_ref raw) as NR.
  destruct (coerced raw); simpl; try done. by destruct (NR l).
Qed.

(** C3.  For a body that is a non-empty text: a text that does not parse
    makes the call throw [SyntaxError]; a text that parses is applied
    whatever the schema says of it.  The validating function is given the
    body, not the parsed patch, so its promise is always rejected, and the
    promise is dropped. *)
Theorem C3_schema_verdict_is_dropped h origObject c s q :
  applyPatchRequest h origObject {| body := JString (String c s); query := q |}
  = match JSON_parse (String c s) with
    | None => Throw h SyntaxError
    | Some patch =>
        bind (applyPatch h (VRef origObject) patch)
             (fun h' newDocument => check_id h' origObject newDocument)
    end
  /\ validatePatchSchema (JString (String c s)) = Rejected.
Proof.
  split; [|reflexivity].
  unfold applyPatchRequest. simpl.
  by destruct (JSON_parse (String c s)).
Qed.

(** A body that a JSON middleware has already parsed to an object reaches
    [JSON.parse] as the text [[object Object]], in which no engine finds
    JSON: the call throws [SyntaxError], whatever the members, unless one
    of them is named [toString] and the conversion itself throws. *)
Lemma parsed_body_is_a_SyntaxError h origObject m ms q :
  JSON_parse "[object Object]" = None ->
  member "toString" (m :: ms) = None ->
  applyPatchRequest h origObject {| body := JObject (m :: ms); query := q |}
  = Throw h SyntaxError.
Proof.
  intros E M. unfold applyPatchRequest.
  cbn [body Object_keys_length length Nat.eqb ToString]. by rewrite M, E.
Qed.

(** The patch that the body parses to is applied by the applier to the
    original document itself, in the store as the call found it.  When the
    applier throws, the call throws the same error and the store is left
    as the applier left it: nothing is copied before and nothing is rolled
    back after.  When the applier returns, its document goes through the
    comparison of the identities. *)
Lemma json_patch_is_applied_to_the_original h origObject c s q :
  match JSON_parse (String c s) with
  | Some patch =>
      match applyPatch h (VRef origObject) patch with
      | Throw h1 e =>
          applyPatchRequest h origObject
            {| body := JString (String c s); query := q |} = Throw h1 e
      | Return h1 newDocument =>
          applyPatchRequest h origObject
            {| body := JString (String c s); query := q |}
          = check_id h1 origObject newDocument
      end
  | None =>
      applyPatchRequest h origObject
        {| body := JString (String c s); query := q |} = Throw h SyntaxError
  end.
Proof.
  unfold applyPatchRequest. simpl.
  destruct (JSON_parse (String c s)) as [patch|]; [|reflexivity].
  by destruct (applyPatch h (VRef origObject) patch).
Qed.

End Divergences.

Section AtomicityExampleRun.
Import AtomicityExample.

(** C2.  The example of section 8, with an applier that works in place as
    that of fast-json-patch does by default.  The patch conforms to the
    schema and the document has the [name] [old].  The replace runs, the
    test that follows it fails, and the call throws: the original document
    is left with the [name] [A] that the replace gave it, and with its
    [age].  The call hands the original itself to the applier (line 139),
    where the patch by query parameters works on a copy. *)
Theorem C2_failed_test_leaves_the_replace_in_the_original :
  JsonPatchSchema.conforms patch = true
  /\ JSON_parse text = Some patch
  /\ holds people 0 "name" (VString "old")
  /\ (exists h',
        applyPatchRequest people 0 {| body := JString text; query := [] |}
        = Throw h' (OtherError "TEST_OPERATION_FAILED")
        /\ holds h' 0 "name" (VString "A")
        /\ holds h' 0 "age" (VNumber five)).
Proof.
  split_and!.
  - reflexivity.
  - vm_compute. reflexivity.
  - exists person. split; reflexivity.
  - eexists. split_and!.
    + vm_compute. reflexivity.
    + eexists. split; reflexivity.
    + eexists. split; reflexivity.
Qed.

End AtomicityExampleRun.

(** ** The schema gate *)

(** [withId] types the identity and takes it off the required list; its
    [$async] lands among the properties. *)
Lemma withId_identity schema :
  properties (withId schema) !! "_id" = Some requiredIdSchema
  /\ ("_id" ∉ required (withId schema))
  /\ properties (withId schema) !! "$async" = Some (JBool true).
Proof.
  split_and!.
  - unfold withId. simpl. by rewrite lookup_insert_ne, lookup_insert_eq.
  - unfold withId. simpl. intros Hin.
    apply list_elem_of_In, filter_In in Hin as [_ Hne]. by rewrite String.eqb_refl in Hne.
  - unfold withId. simpl. by rewrite lookup_insert_eq.
Qed.

(** [withManagedDates] with the default names puts the three dates among
    the properties. *)
Lemma withManagedDates_default_names schema :
  let s := withManagedDates schema
             {| added := None; lastModified := None; deleted := None |} in
  properties s !! "added" = Some optionalDateSchema
  /\ properties s !! "lastModified" = Some optionalDateSchema
  /\ properties s !! "deleted" = Some optionalDateSchema.
Proof.
  simpl. split_and!.
  - do 2 (rewrite lookup_insert_ne by done). by rewrite lookup_insert_eq.
  - rewrite lookup_insert_ne by done. by rewrite lookup_insert_eq.
  - by rewrite lookup_insert_eq.
Qed.

Section SchemaGate.
Context `{Ajv}.

(** A callback that returns at once, in the store it was given, lets the
    loop run to its end in that store. *)
Lemma forEach_value_returns (f : heap -> value -> outcome value) h xs :
  (forall h x, f h x = Return h x) -> forEach_value f h xs = Return h tt.
Proof.
  intros Hf. induction xs as [|x xs IH]; simpl; [done|]. by rewrite Hf.
Qed.

(** C8.  [validateBulk] returns its payload, an array as it is and anything
    else as the one element of a new array, whatever [ajv.validate] says of
    the elements: it never throws. *)
Theorem C8_validateBulk_never_rejects schema dateFieldOverrides h payload :
  validateBulk (getValidate schema dateFieldOverrides) h payload
  = if isArray h payload then Return h payload
    else Return (h ++ [Object KArray {[ "0" := payload ]}])%list (VRef (length h)).
Proof.
  unfold getValidate. simpl.
  destruct (isArray h payload); [|reflexivity].
  by rewrite forEach_value_returns.
Qed.

(** C9, as amended.  With [allowManagedDates] set to [true] the identity
    and the three managed dates, under their default or overridden names,
    are deleted from the payload before the schema is consulted; without
    it, or with it set to [false], the payload is left untouched.  In either
    mode the payload is what is returned. *)
Theorem C9_validate_strips_on_update schema dateFieldOverrides h payload l :
  validate (getValidate schema dateFieldOverrides) h payload None
  = Return h payload
  /\ validate (getValidate schema dateFieldOverrides) h payload (Some false)
     = Return h payload
  /\ validate (getValidate schema dateFieldOverrides) h (VRef l) (Some true)
     = Return
         (alter (delete_prop (default "deleted" (deleted dateFieldOverrides))) l
            (alter (delete_prop (default "lastModified" (lastModified dateFieldOverrides))) l
               (alter (delete_prop (default "added" (added dateFieldOverrides))) l
                  (alter (delete_prop "_id") l h))))
         (VRef l).
Proof. split_and!; reflexivity. Qed.

End SchemaGate.

Section SchemaGateExamples.
Import ExampleHost.

(** C9, as the claim states it, fails on the example document: with
    [allowManagedDates] set to [false] its [_id] is not stripped, and with
    it set to [true] the [_id] is deleted; and the payload comes back though
    [ajv.validate] rejects it. *)
Lemma C9_counterexample :
  ajv_validate example_schema store (VRef 2) = false
  /\ validate (getValidate example_schema no_overrides) store (VRef 2) (Some false)
     = Return store (VRef 2)
  /\ holds store 2 "_id" (VRef 0)
  /\ validate (getValidate example_schema no_overrides) store (VRef 2) (Some true)
     = Return [objectId; address; Object KObject {[ "address" := VRef 1 ]}]
         (VRef 2).
Proof.
  split_and!; try (vm_compute; reflexivity).
  exists document. split; reflexivity.
Qed.

End SchemaGateExamples.

(** * Further behaviour

    The resolver, the patch by query parameters and the schema of a JSON
    Patch once more, then the middleware of [with-db.ts] and the handlers
    of the router. *)

(** ** The path resolver, [getPatchTarget] *)

Section ResolverContract.
Context `{Engine}.

(** X1.  [getPatchTarget] answers [undefined], [null] or an object of the
    store, never a primitive, and the only error it raises is the
    [TypeError] of reading a property of [null]. *)
Theorem getPatchTarget_answers_a_container h o keys :
  match getPatchTarget h o keys with
  | inl e => e = TypeError
  | inr t => t = VUndefined \/ t = VNull \/ exists l, t = VRef l
  end.
Proof.
  unfold getPatchTarget.
  destruct (getPatchTarget_array h o _) as [e|t] eqn:E.
  - by eapply getPatchTarget_array_error.
  - by eapply getPatchTarget_array_result.
Qed.

(** X2.  The resolver finds the container of the last key and never reads
    the last key itself: two arrays of keys that differ in their last key
    resolve alike. *)
Theorem getPatchTarget_ignores_the_last_key h o (keys : list string) a b :
  getPatchTarget h o (inr (keys ++ [a])%list)
  = getPatchTarget h o (inr (keys ++ [b])%list).
Proof.
  unfold getPatchTarget. revert o.
  induction keys as [|k0 keys IH]; intros o.
  - simpl app. by rewrite !getPatchTarget_array_last by (simpl; lia).
  - destruct (decide (o = VUndefined)) as [->|Ho].
    { by rewrite !getPatchTarget_array_undefined. }
    destruct keys as [|k1 keys].
    + simpl app. rewrite !getPatchTarget_array_step by done.
      destruct (get h o _) as [e|v]; [done|]. apply (IH v).
    + simpl app. rewrite !getPatchTarget_array_step by done.
      destruct (get h o _) as [e|v]; [done|]. apply (IH v).
Qed.

(** X3.  A parameter whose path has two keys or more and whose first key
    names nothing that the working copy, a plain object, has or inherits
    is passed over: nothing is thrown and the store is left as it was.
    (A first key that the object inherits, [constructor] or [__proto__]
    say, finds a container outside the store instead.) *)
Theorem patchKey_skips_a_missing_container q h l ob key k0 k1 rest :
  h !! l = Some ob ->
  kind ob = KObject ->
  split_keys key = k0 :: k1 :: rest ->
  props ob !! k0 = None ->
  k0 ∉ Object_prototype_names ->
  patchKey q (VRef l) h key = Return h tt.
Proof.
  intros Hl Hk Hs Hp _. unfold patchKey, getPatchTarget. rewrite Hs.
  rewrite getPatchTarget_array_step by done.
  simpl. rewrite Hl. simpl. rewrite Hk, Hp. done.
Qed.

(** X4.  A parameter whose path leads through a property that is [null]
    is not passed over: the callback throws a [TypeError], from the
    resolver when keys are left after the [null], from the assignment when
    the [null] is the container. *)
Theorem patchKey_throws_through_null q h l ob key k0 k1 rest raw :
  h !! l = Some ob ->
  kind ob = KObject ->
  split_keys key = k0 :: k1 :: rest ->
  props ob !! k0 = Some VNull ->
  query_value q key = Some raw ->
  exists h', patchKey q (VRef l) h key = Throw h' TypeError.
Proof.
  intros Hl Hk Hs Hp Hq.
  assert (T : getPatchTarget h (VRef l) (inl key)
              = match rest with [] => inr VNull | _ => inl TypeError end).
  { unfold getPatchTarget. rewrite Hs.
    rewrite getPatchTarget_array_step by done.
    simpl. rewrite Hl. simpl. rewrite Hk, Hp. simpl.
    by destruct rest. }
  destruct rest as [|k2 rest].
  - eexists. by apply patchKey_null.
  - exists h. unfold patchKey. by rewrite T.
Qed.

End ResolverContract.

Section ResolverExamples.
Import ExampleHost ExampleServer.

Lemma patchKey_skips_a_missing_container_witness :
  patchKey [("zip/code", Some "1")] (VRef 2) store "zip/code" = Return store tt.
Proof.
  apply (patchKey_skips_a_missing_container
           [("zip/code", Some "1")] store 2 document "zip/code" "zip" "code" []);
    try (vm_compute; reflexivity).
  apply (bool_decide_unpack _). vm_compute. exact I.
Defined.

Lemma patchKey_throws_through_null_witness :
  exists h',
    patchKey [("spouse/name", Some "x")] (VRef 0) widowed "spouse/name"
    = Throw h' TypeError.
Proof.
  apply (patchKey_throws_through_null
           [("spouse/name", Some "x")] widowed 0
           (Object KObject {[ "spouse" := VNull ]}) "spouse/name"
           "spouse" "name" [] "x");
    vm_compute; reflexivity.
Defined.

End ResolverExamples.

(** ** applyPatchRequest, patching by query parameters, continued *)

Section QueryPatchContract.
Context `{Engine} `{FastJsonPatch}.

(** X5.  A patch by query parameters returns or throws a [TypeError]: the
    [ValidationError] that the documentation of the function announces is
    out of its reach, whatever the document and the parameters. *)
Theorem query_patch_never_throws_ValidationError h origObject q :
  match applyPatchRequest h origObject {| body := JObject []; query := q |} with
  | Return _ _ => True
  | Throw _ e => e = TypeError
  end.
Proof.
  destruct (query_patch_returns_or_throws_TypeError h origObject q)
    as [(h' & r & ->)|(h' & ->)]; done.
Qed.

(** The comparison of the identities, for a working copy that has the
    identity of the original, an [ObjectId]. *)
Lemma check_id_same h origObject newObject i oid hex :
  identity h origObject = VRef i ->
  get h newObject "_id" = inr (VRef i) ->
  h !! i = Some oid ->
  kind oid = KObjectId hex ->
  check_id h origObject newObject = Return h newObject.
Proof.
  intros Ho Hn Hi Hk. unfold check_id, try.
  rewrite get_identity, Ho, Hn. simpl. rewrite Hi. simpl. rewrite Hk.
  by rewrite String.eqb_refl.
Qed.

(** X6.  Without a body and without parameters, the call on a document
    whose [_id] is an [ObjectId] returns a new plain object with the
    properties of the document, and changes nothing else in the store. *)
Theorem query_patch_without_parameters_copies h origObject ob i oid hex :
  h !! origObject = Some ob ->
  props ob !! "_id" = Some (VRef i) ->
  h !! i = Some oid ->
  kind oid = KObjectId hex ->
  applyPatchRequest h origObject {| body := JObject []; query := [] |}
  = Return (h ++ [Object KObject (props ob)])%list (VRef (length h)).
Proof.
  intros Ho Hid Hi Hkind.
  assert (Hlo : origObject < length h) by (eapply lookup_lt_Some; eauto).
  assert (Hli : i < length h) by (eapply lookup_lt_Some; eauto).
  rewrite applyPatchRequest_query by reflexivity. simpl. rewrite Ho. simpl.
  eapply check_id_same; [| |by rewrite lookup_app_l|done].
  - unfold identity. rewrite lookup_app_l, Ho by done. simpl. by rewrite Hid.
  - simpl. rewrite list_lookup_middle by done. simpl. by rewrite Hid.
Qed.

(** X7.  One parameter with a single key, other than [_id] and
    [__proto__], on a document whose [_id] is an [ObjectId]: the call
    returns a new object that has the properties of the document with the
    coerced value under the key, and the document is as it was. *)
Theorem query_patch_single_parameter_sets_one_field
    h origObject ob i oid hex key raw :
  h !! origObject = Some ob ->
  props ob !! "_id" = Some (VRef i) ->
  h !! i = Some oid ->
  kind oid = KObjectId hex ->
  length (split_keys key) = 1 ->
  key <> "_id" ->
  key <> "__proto__" ->
  exists h',
    applyPatchRequest h origObject
      {| body := JObject []; query := [(key, Some raw)] |}
    = Return h' (VRef (length h))
    /\ h' !! length h = Some (Object KObject (<[key := coerced raw]> (props ob)))
    /\ h' !! origObject = Some ob.
Proof.
  intros Ho Hid Hi Hkind Hseg Hkey _.
  assert (Hlo : origObject < length h) by (eapply lookup_lt_Some; eauto).
  assert (Hli : i < length h) by (eapply lookup_lt_Some; eauto).
  rewrite applyPatchRequest_query by reflexivity. simpl.
  assert (Str.truthy key = true) as -> by (destruct key; [discriminate Hseg | done]).
  simpl.
  rewrite (patchKey_assign _ _ _ _ (length h) raw).
  2:{ unfold getPatchTarget. apply getPatchTarget_array_root. lia. }
  2:{ apply query_value_elem; [apply NoDup_singleton | apply list_elem_of_here]. }
  simpl. rewrite Ho. simpl.
  set (h2 := alter _ _ _).
  assert (Hnew : h2 !! length h
                 = Some (set_prop key (coerced raw) (Object KObject (props ob)))).
  { subst h2. rewrite list_lookup_alter_eq, lookup_app_l, list_lookup_middle
      by (rewrite ?length_app; simpl; lia || done). done. }
  assert (Hold : forall x, x < length h -> h2 !! x = h !! x).
  { intros x Hx. subst h2.
    by rewrite list_lookup_alter_ne, !lookup_app_l
      by (rewrite ?length_app; simpl; lia). }
  exists h2. split_and!; [|exact Hnew|by rewrite Hold].
  eapply check_id_same; [| |by rewrite Hold|done].
  - unfold identity. rewrite Hold, Ho by done. simpl. by rewrite Hid.
  - simpl. rewrite Hnew. simpl. by rewrite lookup_insert_ne, Hid.
Qed.

(** One parameter keeps what the parameters before it kept. *)
Lemma patchKey_kept q l0 keys ob h l key :
  key ∈ keys -> kept keys ob h l ->
  kept keys ob (final_heap (patchKey q (VRef l0) h key)) l.
Proof.
  intros Hkey (ob' & Hl & Hk & Hdom & Hval).
  assert (Hlt : l < length h) by (eapply lookup_lt_Some; eauto).
  destruct (patchKey_heap q l0 h key) as (extra & _ & [->|(l' & raw & _ & _ & ->)]).
  - exists ob'. by rewrite lookup_app_l by lia.
  - simpl. destruct (decide (l' = l)) as [->|Hne].
    + exists (set_prop key (coerced raw) ob'). split_and!.
      * by rewrite list_lookup_alter_eq, lookup_app_l, Hl by lia.
      * done.
      * intros k Hs. simpl. destruct (decide (k = key)) as [->|Hkk].
        -- rewrite lookup_insert_eq. eauto.
        -- rewrite lookup_insert_ne by done. by apply Hdom.
      * intros k Hk'. simpl. rewrite lookup_insert_ne; [by apply Hval|].
        intros ->. done.
    + exists ob'. by rewrite list_lookup_alter_ne, lookup_app_l by (done || lia).
Qed.

(** X8.  A patch by query parameters only ever adds and overwrites:
    whether it returns or throws, every object that was in the store is
    still there with its kind and with every property it had, and a
    property whose name is not a key of the query has the value it had.  No
    parameter removes a property, not even the literal [undefined]. *)
Theorem query_patch_removes_nothing h origObject req l ob :
  Object_keys_length (body req) = Some 0 ->
  h !! l = Some ob ->
  exists ob',
    final_heap (applyPatchRequest h origObject req) !! l = Some ob'
    /\ kind ob' = kind ob
    /\ (forall k, is_Some (props ob !! k) -> is_Some (props ob' !! k))
    /\ (forall k, k ∉ map fst (query req) -> props ob' !! k = props ob !! k).
Proof.
  intros Hbody Hl.
  assert (Hlt : l < length h) by (eapply lookup_lt_Some; eauto).
  rewrite applyPatchRequest_query by done.
  set (keys := List.filter Str.truthy (map fst (query req))).
  pose proof (forEach_final_heap (fun h' => kept keys ob h' l)
                (patchKey (query req) (VRef (length h))) keys) as Inv.
  specialize (Inv (fun h' key Hin K => patchKey_kept _ _ _ _ _ _ _ Hin K)
                (spread h origObject).1).
  destruct Inv as (ob' & Hl' & Hk & Hdom & Hval).
  { exists ob. simpl. by rewrite lookup_app_l by done. }
  exists ob'. split_and!; [|done..|].
  - rewrite !final_heap_bind.
    destruct (forEach _ _ keys) as [h2 []|h2 e]; simpl in *; [|done].
    by rewrite check_id_final_heap.
  - intros k Hk'. apply Hval. intros Hin. apply Hk'.
    apply list_elem_of_In, filter_In in Hin as [Hin _]. by apply list_elem_of_In.
Qed.

End QueryPatchContract.

Section QueryPatchContractExamples.
Import ExampleHost ExampleServer.

Lemma query_patch_without_parameters_copies_witness :
  applyPatchRequest store 2 {| body := JObject []; query := [] |}
  = Return (store ++ [Object KObject (props document)])%list (VRef (length store)).
Proof.
  apply (query_patch_without_parameters_copies store 2 document 0 objectId
           "507f1f77bcf86cd799439011");
    vm_compute; reflexivity.
Defined.

Lemma query_patch_single_parameter_sets_one_field_witness :
  exists h',
    applyPatchRequest store 2 rename = Return h' (VRef (length store))
    /\ h' !! length store
       = Some (Object KObject (<["name" := coerced "Joey"]> (props document)))
    /\ h' !! 2 = Some document.
Proof.
  apply (query_patch_single_parameter_sets_one_field store 2 document 0 objectId
           "507f1f77bcf86cd799439011" "name" "Joey");
    try (vm_compute; reflexivity); discriminate.
Defined.

Lemma query_patch_removes_nothing_witness :
  exists ob',
    final_heap
      (applyPatchRequest store 2
         {| body := JObject []; query := [("address/city", Some "true")] |})
    !! 1 = Some ob'
    /\ kind ob' = kind address
    /\ (forall k, is_Some (props address !! k) -> is_Some (props ob' !! k))
    /\ (forall k,
          k ∉ map fst [("address/city", Some "true")] ->
          props ob' !! k = props address !! k).
Proof.
  apply (query_patch_removes_nothing store 2
           {| body := JObject []; query := [("address/city", Some "true")] |}
           1 address);
    reflexivity.
Defined.

End QueryPatchContractExamples.

(** ** Paths and values of the query, continued *)




Section QueryValue.
Context `{Engine}.

(** X10.  On a working copy that is a plain object, as the spread of line
    98 makes it, no parameter but [__proto__] stores a [Date], whatever the
    engine reads in its value: what is left under the key is [undefined],
    [null], a boolean, a string or a number.  The [Date] that line 128
    makes of a value in which the engine reads a date is stored by line
    130 and overwritten by line 133 with the string; it stays in the store
    with nothing referring to it.  (Under the key [__proto__] the two
    assignments set a prototype and make no property.) *)
Theorem query_parameter_never_stores_a_Date q newObject ob h key l raw :
  h !! newObject = Some ob ->
  kind ob = KObject ->
  getPatchTarget h (VRef newObject) (inl key) = inr (VRef l) ->
  query_value q key = Some raw ->
  key <> "__proto__" ->
  exists v extra,
    patchKey q (VRef newObject) h key
    = Return (alter (set_prop key v) l (h ++ extra)%list) tt
    /\ (forall d, v <> VRef d)
    /\ (extra = []
        \/ exists t, Date_parse raw = Some t /\ extra = [Object (KDate t) ∅]
                     /\ v = VString raw).
Proof.
  intros _ _ T V _. exists (coerced raw), (transient raw).
  split; [by apply patchKey_assign|]. split; [apply coerced_not_ref|].
  unfold transient, coerced.
  coercion_cases raw; eauto.
Qed.

End QueryValue.

Section QueryValueExamples.
Import ExampleHost ExampleServer.

Lemma query_parameter_never_stores_a_Date_witness :
  exists v extra,
    @patchKey dated [("since", Some "Jan 1 2020")] (VRef 2) store "since"
    = Return (alter (set_prop "since" v) 2 (store ++ extra)%list) tt
    /\ (forall d, v <> VRef d)
    /\ (extra = []
        \/ exists t, @Date_parse dated "Jan 1 2020" = Some t
                     /\ extra = [Object (KDate t) ∅]
                     /\ v = VString "Jan 1 2020").
Proof.
  apply (@query_parameter_never_stores_a_Date dated
           [("since", Some "Jan 1 2020")] 2 document store "since" 2
           "Jan 1 2020");
    try reflexivity; discriminate.
Defined.

End QueryValueExamples.

(** ** The schema of a JSON Patch, continued *)

Section PatchSchema.
Import JsonPatchSchema.

(** An [op] is in one of the three lists at most. *)
Lemma enum_exclusive j :
  (enum ["add"; "replace"; "test"] j = true
   -> enum ["remove"] j = false /\ enum ["move"; "copy"] j = false)
  /\ (enum ["remove"] j = true -> enum ["move"; "copy"] j = false).
Proof.
  destruct j as [| | |s| |]; simpl; try (split; intros; discriminate).
  destruct (String.eqb_spec s "add") as [->|]; [by split|].
  destruct (String.eqb_spec s "replace") as [->|]; [by split|].
  destruct (String.eqb_spec s "test") as [->|]; [by split|].
  destruct (String.eqb_spec s "remove") as [->|]; [by split|].
  split; [discriminate|discriminate].
Qed.

(** A member that is required and constrained is there and satisfies the
    constraint. *)
Lemma property_required k check ks ms :
  property k check ms = true -> required ks ms = true -> In k ks ->
  exists j, member k ms = Some j /\ check j = true.
Proof.
  unfold property, required. intros P R Hin.
  rewrite forallb_forall in R. specialize (R k Hin).
  apply bool_decide_eq_true in R as [j Hj]. rewrite Hj in P. eauto.
Qed.

Lemma required_true ks ms :
  Forall (fun k => is_Some (member k ms)) ks -> required ks ms = true.
Proof.
  intros F. unfold required. apply forallb_forall. intros k Hin.
  apply bool_decide_eq_true. rewrite Forall_forall in F.
  by apply F, list_elem_of_In.
Qed.

Lemma pointer_true j :
  pointer j = true -> exists s, j = JString s /\ pattern s = true.
Proof. destruct j; simpl; try discriminate. eauto. Qed.

Lemma enum_true allowed j :
  enum allowed j = true -> exists s, j = JString s /\ In s allowed.
Proof.
  destruct j; simpl; try discriminate. intros E.
  apply existsb_exists in E as (x & Hin & E). apply String.eqb_eq in E as ->. eauto.
Qed.

Lemma enum_In allowed s : In s allowed -> enum allowed (JString s) = true.
Proof.
  intros Hin. simpl. apply existsb_exists. exists s. split; [done|].
  apply String.eqb_refl.
Qed.

Lemma addReplaceTest_true j :
  addReplaceTest j = true ->
  exists ms op path,
    j = JObject ms
    /\ member "op" ms = Some op /\ enum ["add"; "replace"; "test"] op = true
    /\ member "path" ms = Some (JString path) /\ pattern path = true
    /\ is_Some (member "value" ms).
Proof.
  destruct j as [| | | | |ms]; try discriminate. unfold addReplaceTest.
  rewrite !andb_true_iff. intros [[[O P] V] R].
  destruct (property_required _ _ _ _ O R) as (op & Hop & Eop); [simpl; tauto|].
  destruct (property_required _ _ _ _ P R) as (p & Hp & Ep); [simpl; tauto|].
  destruct (property_required _ _ _ _ V R) as (v & Hv & _); [simpl; tauto|].
  apply pointer_true in Ep as (path & -> & Ep).
  exists ms, op, path. rewrite Hv. eauto 10.
Qed.

Lemma remove_true j :
  remove j = true ->
  exists ms op path,
    j = JObject ms
    /\ member "op" ms = Some op /\ enum ["remove"] op = true
    /\ member "path" ms = Some (JString path) /\ pattern path = true.
Proof.
  destruct j as [| | | | |ms]; try discriminate. unfold remove.
  rewrite !andb_true_iff. intros [[O P] R].
  destruct (property_required _ _ _ _ O R) as (op & Hop & Eop); [simpl; tauto|].
  destruct (property_required _ _ _ _ P R) as (p & Hp & Ep); [simpl; tauto|].
  apply pointer_true in Ep as (path & -> & Ep).
  exists ms, op, path. eauto 10.
Qed.

Lemma moveCopy_true j :
  moveCopy j = true ->
  exists ms op path from,
    j = JObject ms
    /\ member "op" ms = Some op /\ enum ["move"; "copy"] op = true
    /\ member "path" ms = Some (JString path) /\ pattern path = true
    /\ member "from" ms = Some (JString from) /\ pattern from = true.
Proof.
  destruct j as [| | | | |ms]; try discriminate. unfold moveCopy.
  rewrite !andb_true_iff. intros [[[O F] P] R].
  destruct (property_required _ _ _ _ O R) as (op & Hop & Eop); [simpl; tauto|].
  destruct (property_required _ _ _ _ P R) as (p & Hp & Ep); [simpl; tauto|].
  destruct (property_required _ _ _ _ F R) as (f & Hf & Ef); [simpl; tauto|].
  apply pointer_true in Ep as (path & -> & Ep).
  apply pointer_true in Ef as (from & -> & Ef).
  exists ms, op, path, from. eauto 10.
Qed.

(** The three shapes exclude one another, so that exactly one of them
    holds as soon as one does. *)
Lemma oneOf_shapes j :
  oneOf [addReplaceTest; remove; moveCopy] j
  = addReplaceTest j || remove j || moveCopy j.
Proof.
  unfold oneOf. cbn [List.filter].
  destruct (addReplaceTest j) eqn:A, (remove j) eqn:R, (moveCopy j) eqn:M;
    try reflexivity; exfalso;
    repeat match goal with
    | E : addReplaceTest j = true |- _ =>
        apply addReplaceTest_true in E as (? & ? & ? & -> & ? & ? & _)
    | E : remove (JObject _) = true |- _ =>
        apply remove_true in E as (? & ? & ? & ? & ? & ? & _)
    | E : remove j = true |- _ =>
        apply remove_true in E as (? & ? & ? & -> & ? & ? & _)
    | E : moveCopy _ = true |- _ =>
        apply moveCopy_true in E as (? & ? & ? & ? & ? & ? & ? & _)
    end;
    simplify_eq;
    match goal with
    | E : enum _ ?op = true |- _ =>
        destruct (enum_exclusive op) as [E1 E2];
        first [ destruct (E1 E); congruence | pose proof (E2 E); congruence ]
    end.
Qed.

Lemma well_formed_shape item :
  well_formed_operation item ->
  addReplaceTest item || remove item || moveCopy item = true.
Proof.
  intros (ms & op & path & -> & Hop & Hpath & Hpat & Hshape).
  destruct Hshape as [[Hin [v Hv]]|[->|[Hin (from & Hf & Hfp)]]].
  - apply orb_true_iff; left. apply orb_true_iff; left.
    unfold addReplaceTest, property. rewrite Hop, Hpath, Hv.
    rewrite (enum_In _ _ Hin). cbn [pointer]. rewrite Hpat.
    rewrite required_true; [done|].
    repeat constructor; eauto.
  - apply orb_true_iff; left. apply orb_true_iff; right.
    unfold remove, property. rewrite Hop, Hpath.
    rewrite (enum_In ["remove"] "remove") by (simpl; tauto).
    cbn [pointer]. rewrite Hpat.
    rewrite required_true; [done|].
    repeat constructor; eauto.
  - apply orb_true_iff; right.
    unfold moveCopy, property. rewrite Hop, Hpath, Hf.
    rewrite (enum_In _ _ Hin). cbn [pointer]. rewrite Hpat, Hfp.
    rewrite required_true; [done|].
    repeat constructor; eauto.
Qed.

Lemma shape_well_formed item :
  addReplaceTest item || remove item || moveCopy item = true ->
  well_formed_operation item.
Proof.
  intros C.
  apply orb_true_iff in C as [C|C]; [apply orb_true_iff in C as [C|C]|].
  - apply addReplaceTest_true in C
      as (ms & op & path & -> & Hop & Eop & Hp & Ep & Hv).
    apply enum_true in Eop as (s & -> & Hs).
    exists ms, s, path. split_and!; try done. left. done.
  - apply remove_true in C as (ms & op & path & -> & Hop & Eop & Hp & Ep).
    apply enum_true in Eop as (s & -> & Hs).
    exists ms, s, path. split_and!; try done. right; left.
    simpl in Hs. by destruct Hs as [<-|[]].
  - apply moveCopy_true in C
      as (ms & op & path & from & -> & Hop & Eop & Hp & Ep & Hf & Ef).
    apply enum_true in Eop as (s & -> & Hs).
    exists ms, s, path. split_and!; try done. right; right. eauto.
Qed.

(** X11.  The three alternatives of [oneOf] exclude one another, their
    lists of [op] being disjoint and [op] being required: an array conforms
    when each of its items has one of the three shapes. *)
Theorem conforms_when_each_item_has_a_shape items :
  conforms (JArray items)
  = forallb (fun j => addReplaceTest j || remove j || moveCopy j) items.
Proof.
  unfold conforms. induction items as [|j items IH]; [reflexivity|].
  cbn [forallb]. by rewrite oneOf_shapes, IH.
Qed.

(** X12.  The schema accepts the arrays of well-formed operations and
    nothing else: each item is an object with an [op] and a [path] that is
    a pointer, with a [value] when the [op] is [add], [replace] or [test],
    and with a [from] that is a pointer when it is [move] or [copy]. *)
Theorem conforms_exactly_the_well_formed_patches data :
  conforms data = true
  <-> exists items, data = JArray items /\ Forall well_formed_operation items.
Proof.
  split.
  - destruct data as [| | | |items|]; try discriminate.
    intros C. exists items. split; [done|].
    unfold conforms in C. rewrite forallb_forall in C.
    apply Forall_forall. intros item Hin%list_elem_of_In.
    specialize (C item Hin). rewrite oneOf_shapes in C.
    by apply shape_well_formed.
  - intros (items & -> & F). unfold conforms. apply forallb_forall.
    intros item Hin%list_elem_of_In. rewrite oneOf_shapes.
    rewrite Forall_forall in F. by apply well_formed_shape, F.
Qed.

End PatchSchema.

(** ** The middleware of [with-db.ts] *)

Section Middleware.
Context `{Mongo}.

(** With a string, [resolveDb] takes the client from the cache or makes
    one, and caches it before it asks for the database. *)
Lemma resolveDb_string p url :
  resolveDb p (DbString url)
  = match (match clients p !! url with
           | Some client => inr client
           | None => new_MongoClient url
           end) with
    | inl e => (p, inl e)
    | inr client =>
        ({| MONGO_URL := MONGO_URL p;
            clients := <[url := client]> (clients p);
            closed := closed p |},
         client_db client)
    end.
Proof. reflexivity. Qed.

(** X13.  Once [resolveDb] has answered a database for a URL, the client
    of that URL is in the cache, and the same call again answers the same
    database and leaves the cache as it is. *)
Theorem resolveDb_reuses_the_client p url p1 d :
  resolveDb p (DbString url) = (p1, inr d) ->
  (exists client, clients p1 !! url = Some client /\ client_db client = inr d)
  /\ resolveDb p1 (DbString url) = (p1, inr d).
Proof.
  rewrite !resolveDb_string. intros E.
  assert (exists client,
            p1 = {| MONGO_URL := MONGO_URL p;
                    clients := <[url := client]> (clients p);
                    closed := closed p |}
            /\ client_db client = inr d) as (client & -> & Hd).
  { destruct (clients p !! url) as [c|]; [|destruct (new_MongoClient url) as [e|c]];
      inversion E; subst; eauto. }
  simpl. rewrite lookup_insert_eq. split; [eauto|].
  by rewrite insert_insert_eq, Hd.
Qed.

(** X14.  The middleware throws when [MONGO_URL] is not set or is empty,
    whatever [db] it was given, a database that is ready included, and it
    throws in no other case: whatever goes wrong while the database is
    resolved is answered, not thrown. *)
Theorem withDb_throws_only_without_MONGO_URL db p l next e :
  withDb db p l next = inl e
  <-> (MONGO_URL p = None \/ MONGO_URL p = Some EmptyString)
      /\ e = Error "MONGO_URL not set".
Proof.
  unfold withDb.
  destruct (MONGO_URL p) as [[|c url]|]; simpl.
  - split; [intros E; inversion E; eauto | intros [_ ->]; done].
  - destruct (resolveDb p db) as [p1 [e'|d]].
    + destruct (instanceof_MongoServerError e'), (instanceof_MongoError e');
        (split; [discriminate | intros [[?|?] _]; discriminate]).
    + destruct l; (split; [discriminate | intros [[?|?] _]; discriminate]).
  - split; [intros E; inversion E; eauto | intros [_ ->]; done].
Qed.

(** X15.  The middleware made without a [db] is the middleware made with
    the URL of [MONGO_URL]: the error that [resolveDb] has for a missing
    [db] is not met on this way. *)
Theorem withDb_without_db_uses_MONGO_URL p url l next :
  MONGO_URL p = Some url ->
  withDb DbUndefined p l next = withDb (DbString url) p l next.
Proof.
  intros E. unfold withDb. rewrite E.
  replace (resolveDb p DbUndefined) with (resolveDb p (DbString url)); [done|].
  unfold resolveDb. by rewrite E.
Qed.

(** X16.  When the middleware returns.  If the database was resolved and
    the request has a [locals], the database is put there, nothing is sent
    and [next] is called if there is one.  If the database was resolved and
    the request has no [locals], which is how express makes a request, the
    database is lost: the answer is 500, [Unexpected error.], and [next] is
    called all the same.  If the database was not resolved, a response of
    status 500 or more is sent, the request keeps what it had, and [next]
    is still called unless the error is a [MongoError]. *)
Theorem withDb_goes_on_unless_Mongo_failed db p l next s :
  withDb db p l next = inr s ->
  match (resolveDb p db).2, l with
  | inr d, Some _ =>
      response s = None /\ locals_db s = Some (Some d) /\ next_called s = next
  | inr _, None =>
      response s = Some (error_response 500 "Unexpected error.")
      /\ locals_db s = None
      /\ next_called s = next
  | inl e, _ =>
      (exists r, response s = Some r /\ 500 <= statusCode r)
      /\ locals_db s = l
      /\ next_called s = next && negb (instanceof_MongoError e)
  end.
Proof.
  unfold withDb.
  destruct (MONGO_URL p) as [url|]; [|discriminate].
  destruct (Str.truthy url); [|discriminate].
  destruct (resolveDb p db) as [p1 [e|d]]; simpl.
  - destruct e; simpl; intros E; inversion E; subst; simpl;
      rewrite ?andb_false_r, ?andb_true_r; split_and!; eauto;
      eexists; split; eauto; simpl; lia.
  - destruct l; intros E; by inversion E.
Qed.

(** X17.  A [MongoError] while a client for another URL is made costs the
    client of [MONGO_URL] its place: that client is closed and taken out of
    the cache, the answer is 500 and [next] is not called. *)
Theorem withDb_drops_the_default_client p mongoURL url client l next :
  MONGO_URL p = Some mongoURL ->
  Str.truthy mongoURL = true ->
  clients p !! mongoURL = Some client ->
  clients p !! url = None ->
  new_MongoClient url = inl MongoError ->
  withDb (DbString url) p l next
  = inr {| process := {| MONGO_URL := Some mongoURL;
                         clients := delete mongoURL (clients p);
                         closed := (closed p ++ [client])%list |};
           locals_db := l;
           response := Some (error_response 500 "Unexpected Mongo error.");
           next_called := false |}.
Proof.
  intros E T C U N. unfold withDb. rewrite E, T, resolveDb_string, U, N. simpl.
  unfold reset. by rewrite E, C.
Qed.

End Middleware.

Section MiddlewareExamples.
Import ExampleServer.

Lemma resolveDb_reuses_the_client_witness :
  (exists client, clients cached !! url = Some client /\ client_db client = inr url)
  /\ resolveDb cached (DbString url) = (cached, inr url).
Proof.
  apply (resolveDb_reuses_the_client started url cached url). reflexivity.
Defined.

Lemma withDb_without_db_uses_MONGO_URL_witness :
  withDb DbUndefined started None true = withDb (DbString url) started None true.
Proof.
  apply (withDb_without_db_uses_MONGO_URL started url None true). reflexivity.
Defined.

Lemma withDb_goes_on_unless_Mongo_failed_witness :
  response unserved = Some (error_response 500 "Unexpected error.")
  /\ locals_db unserved = None
  /\ next_called unserved = true.
Proof.
  apply (withDb_goes_on_unless_Mongo_failed (DbString url) started None true
           unserved).
  reflexivity.
Defined.

Lemma withDb_drops_the_default_client_witness :
  withDb (DbString "bad") cached None true
  = inr {| process := {| MONGO_URL := Some url;
                         clients := delete url (clients cached);
                         closed := (closed cached ++ [url])%list |};
           locals_db := None;
           response := Some (error_response 500 "Unexpected Mongo error.");
           next_called := false |}.
Proof.
  apply (withDb_drops_the_default_client cached url "bad" url None true);
    vm_compute; reflexivity.
Defined.

End MiddlewareExamples.

(** ** The handlers of the router *)

Lemma append_empty_r (s : string) : s ++ EmptyString = s.
Proof.
  induction s as [|c s IH]; [reflexivity|].
  change (String c s ++ EmptyString) with (String c (s ++ EmptyString)).
  by rewrite IH.
Qed.

(** What the [catch] of a handler makes of an exception, when it makes a
    response of it, is a response of status 400. *)
Lemma catch_Throw_Return h e h' r :
  catch (Throw h e) = Return h' r -> h' = h /\ statusCode r = 400.
Proof.
  unfold catch. destruct e; simpl; intros E; inversion E; subst; done.
Qed.



Section Handlers.
Context `{Engine} `{FastJsonPatch} `{Ajv} `{Collection}.
Variable schema : JSONSchema.
Variable options : MongoRestRouterOptions.

(** [validateBulk] answers an array, and leaves the objects of the store
    as they were. *)
Lemma validateBulk_array dateFieldOverrides h payload :
  exists h' a,
    validateBulk (getValidate schema dateFieldOverrides) h payload = Return h' a
    /\ isArray h' a = true
    /\ (forall l, l < length h -> h' !! l = h !! l).
Proof.
  unfold getValidate. simpl.
  destruct (isArray h payload) eqn:A.
  - exists h, payload. by rewrite forEach_value_returns.
  - eexists _, _. split; [reflexivity|]. split.
    + simpl. by rewrite list_lookup_middle.
    + intros l Hl. by rewrite lookup_app_l.
Qed.




(** X19.  A response of POST is the [insertedIds] of [insertMany] or a
    400: the branch of lines 171 to 175, with [insertOne] and
    [insertedId], is never taken, whatever the body and the options. *)
Theorem POST_never_answers_insertedId now h body h' r :
  POST schema options now h body = Return h' r ->
  (exists insertedIds, r = send [("insertedIds", FValue insertedIds)])
  \/ statusCode r = 400.
Proof.
  unfold POST, validators.
  destruct (validateBulk_array (dateFields options) h body) as (h1 & a & -> & A & _).
  simpl. rewrite A.
  destruct (noPostBulk options).
  { intros E. right. by apply catch_Throw_Return in E as [_ ?]. }
  match goal with
  | |- catch (bind ?m _) = _ -> _ => destruct m as [h3 []|h3 e]
  end; simpl.
  2:{ intros E. right. by apply catch_Throw_Return in E as [_ ?]. }
  destruct (insertMany h3 a) as [h4 ids|h4 e]; simpl.
  - intros E. inversion E; subst. left. eauto.
  - intros E. right. by apply catch_Throw_Return in E as [_ ?].
Qed.



(** X22.  When a patch by query parameters throws, the handler of PATCH
    sends nothing: [handleValidateError] throws the [TypeError] again, and
    the promise of the handler is rejected with it.  A parameter [_id] is
    such a patch. *)
Theorem PATCH_by_query_rejects_with_TypeError now h origObject q :
  match applyPatchRequest h origObject {| body := JObject []; query := q |} with
  | Return _ _ => True
  | Throw h' _ =>
      PATCH_found schema options now h origObject {| body := JObject []; query := q |}
      = Throw h' TypeError
  end.
Proof.
  unfold PATCH_found.
  destruct (query_patch_returns_or_throws_TypeError h origObject q)
    as [(h' & r & ->)|(h' & ->)]; done.
Qed.

(** The text of a body that is an object, or an array that begins with
    an object, begins with [[object Object]] when there is a text. *)
Lemma ToString_of_a_parsed_patch b text :
  (exists m ms, b = JObject (m :: ms))
  \/ (exists ms rest, b = JArray (JObject ms :: rest)) ->
  ToString b = Some text ->
  exists s, text = "[object Object]" ++ s.
Proof.
  intros [(m & ms & ->)|(ms & rest & ->)]; cbn [ToString].
  - destruct (member "toString" (m :: ms)); [discriminate|].
    intros E. inversion E. exists EmptyString. by rewrite append_empty_r.
  - destruct (member "toString" ms); [discriminate|].
    destruct rest as [|x rest].
    + intros E. inversion E. exists EmptyString. by rewrite append_empty_r.
    + match goal with
      | |- match ?j with _ => _ end = _ -> _ => destruct j as [others|]
      end; [|discriminate].
      intros E. inversion E. eauto.
Qed.

(** X23.  The router parses the body before the handler sees it, and the
    handler of PATCH has it parsed again.  A body that is an object with a
    member, or an array that begins with an object, which every JSON Patch
    is, is first converted to a text.  The text begins with
    [[object Object]], in which no engine finds JSON: when [findOne] has
    found the document, the answer is 400, [Invalid JSON payload].  There
    is no text when an object met in the conversion has a member named
    [toString]: the conversion throws a [TypeError], which
    [handleValidateError] throws again, and the promise of the handler is
    rejected.  Either way the patch is not applied and nothing is
    written. *)
Theorem PATCH_of_a_parsed_body_answers_400 now h id origObject h1 q b :
  (forall s, JSON_parse ("[object Object]" ++ s) = None) ->
  findOne (new_ObjectId id h).1 (criteria_of options (VRef (length h)))
  = Return h1 (Some origObject) ->
  (exists m ms, b = JObject (m :: ms))
  \/ (exists ms rest, b = JArray (JObject ms :: rest)) ->
  PATCH schema options now h id {| body := b; query := q |}
  = match ToString b with
    | Some _ => Return h1 invalid_JSON_payload
    | None => Throw h1 TypeError
    end.
Proof.
  intros E F B. unfold PATCH. unfold new_ObjectId, alloc in *. simpl in F.
  cbn [fst snd]. rewrite F. cbn [bind].
  unfold PATCH_found, applyPatchRequest. cbn [body].
  assert (exists n, Object_keys_length b = Some (S n)) as [n ->].
  { destruct B as [(m & ms & ->)|(ms & rest & ->)]; simpl; eauto. }
  cbn [Nat.eqb].
  destruct (ToString b) as [text|] eqn:T; [|reflexivity].
  destruct (ToString_of_a_parsed_patch b text B T) as [s ->].
  by rewrite E.
Qed.

End Handlers.

Section HandlersExamples.
Import ExampleHost ExampleServer.


Lemma POST_never_answers_insertedId_witness :
  (exists insertedIds,
      send [("insertedIds", FValue VNull)]
      = send [("insertedIds", FValue insertedIds)])
  \/ statusCode (send [("insertedIds", FValue VNull)]) = 400.
Proof.
  eapply (POST_never_answers_insertedId example_schema defaults 0 store (VRef 2)).
  vm_compute. reflexivity.
Defined.



Lemma PATCH_of_a_parsed_body_answers_400_witness :
  PATCH example_schema defaults 0 store upper_id
    {| body := AtomicityExample.patch; query := [] |}
  = Return (new_ObjectId upper_id store).1 invalid_JSON_payload.
Proof.
  apply (PATCH_of_a_parsed_body_answers_400 example_schema defaults 0 store
           upper_id 2 (new_ObjectId upper_id store).1 [] AtomicityExample.patch).
  - intros s. reflexivity.
  - reflexivity.
  - right. unfold AtomicityExample.patch. eauto.
Defined.

End HandlersExamples.
